(** * Cinema listings: the validator and the fixer of [validate_cinema_data.py]

A shallow embedding of [validate_cinema_data] and [auto_fix_data].
The program works on whatever [json.load] returns, so the data is a
tree of dynamically typed values and every Python operation that can
raise on a value of the wrong type is modelled with its exception.
Numbers are restricted to integers (no floats); strings are sequences
of characters as Rocq has them. *)

From Stdlib Require Import ZArith String Ascii Sorted.
From stdpp Require Import base tactics option list strings gmap.

#[local] Set Warnings "-clear-no-such-hyp".

Local Open Scope string_scope.
Local Open Scope list_scope.
Local Open Scope nat_scope.
Local Open Scope stdpp_scope.

(** ** Values produced by [json.load] *)

#[warnings="-register-all"] Inductive json :=
| JNull
| JBool (b : bool)
| JInt (z : Z)
| JStr (s : string)
| JArr (l : list json)
| JObj (kvs : list (string * json)).

(** ** Exceptions and the error monad *)

Inductive exn :=
| TypeError
| AttributeError
| FileNotFoundError
| JSONDecodeError.

Inductive result (A : Type) :=
| Ok (a : A)
| Raise (e : exn).
Arguments Ok {A} a.
Arguments Raise {A} e.

#[global] Instance result_ret : MRet result := fun A a => Ok a.
#[global] Instance result_bind : MBind result := fun A B f m =>
  match m with
  | Ok a => f a
  | Raise e => Raise e
  end.

(** [for x in xs: body], threading the mutable locals as a state. *)
Fixpoint for_each {A S : Type} (body : A -> S -> result S) (xs : list A) (s : S)
  : result S :=
  match xs with
  | [] => Ok s
  | x :: xs' => s' ← body x s; for_each body xs' s'
  end.

(** ** Python primitives on JSON values *)

Module Py.

(** A [dict] with string keys keeps insertion order. *)
Fixpoint find (k : string) (kvs : list (string * json)) : option json :=
  match kvs with
  | [] => None
  | (k', v) :: kvs' => if String.eqb k k' then Some v else find k kvs'
  end.

(** [d[k] = v] on the items of a dict: in place when the key exists,
    appended otherwise. *)
Fixpoint setitem (k : string) (v : json) (kvs : list (string * json))
  : list (string * json) :=
  match kvs with
  | [] => [(k, v)]
  | (k', v') :: kvs' =>
      if String.eqb k k' then (k', v) :: kvs' else (k', v') :: setitem k v kvs'
  end.

(** [d.get(k, dflt)]: among JSON values only a dict has [get]. *)
Definition get (d : json) (k : string) (dflt : json) : result json :=
  match d with
  | JObj kvs => Ok (default dflt (find k kvs))
  | _ => Raise AttributeError
  end.

(** [d[k] = v] with a string key. *)
Definition store (d : json) (k : string) (v : json) : result json :=
  match d with
  | JObj kvs => Ok (JObj (setitem k v kvs))
  | _ => Raise TypeError
  end.

Definition chars (s : string) : list json :=
  (fun a => JStr (String a EmptyString)) <$> list_ascii_of_string s.

(** [for x in v]: a list gives its elements, a dict its keys, a string
    its characters; nothing else is iterable. *)
Definition iter (v : json) : result (list json) :=
  match v with
  | JArr l => Ok l
  | JObj kvs => Ok ((fun kv => JStr kv.1) <$> kvs)
  | JStr s => Ok (chars s)
  | _ => Raise TypeError
  end.

(** [len(v)] *)
Definition len (v : json) : result nat :=
  match v with
  | JArr l => Ok (length l)
  | JObj kvs => Ok (length kvs)
  | JStr s => Ok (String.length s)
  | _ => Raise TypeError
  end.

Definition hashable (v : json) : bool :=
  match v with
  | JArr _ | JObj _ => false
  | _ => true
  end.

Definition num_of (v : json) : option Z :=
  match v with
  | JBool b => Some (if b then 1 else 0)%Z
  | JInt z => Some z
  | _ => None
  end.

(** [a == b] on hashable values ([True == 1] and [False == 0]). *)
Definition eqb (a b : json) : bool :=
  match a, b with
  | JNull, JNull => true
  | JStr s, JStr t => String.eqb s t
  | _, _ =>
      match num_of a, num_of b with
      | Some x, Some y => (x =? y)%Z
      | _, _ => false
      end
  end.

(** [a < b] on hashable values; [None] stands for the [TypeError] of an
    unsupported comparison. *)
Definition ltb (a b : json) : result bool :=
  match a, b with
  | JStr s, JStr t => Ok (String.ltb s t)
  | _, _ =>
      match num_of a, num_of b with
      | Some x, Some y => Ok (x <? y)%Z
      | _, _ => Raise TypeError
      end
  end.

(** A dict keyed by hashable values ([defaultdict] and plain dicts alike):
    [d[k] = f(d.get(k))]; an existing key keeps its place. *)
Section Dict.
Context {V : Type}.

Fixpoint dfind (k : json) (d : list (json * V)) : option V :=
  match d with
  | [] => None
  | (k', v) :: d' => if eqb k k' then Some v else dfind k d'
  end.

Fixpoint dset (k : json) (v : V) (d : list (json * V)) : list (json * V) :=
  match d with
  | [] => [(k, v)]
  | (k', v') :: d' => if eqb k k' then (k', v) :: d' else (k', v') :: dset k v d'
  end.

Definition update (k : json) (f : option V -> V) (d : list (json * V))
  : result (list (json * V)) :=
  if hashable k then Ok (dset k (f (dfind k d)) d) else Raise TypeError.
End Dict.

(** [set(v)]: the distinct elements, here in order of first occurrence
    (the callers take its length or sort it). *)
Definition add (acc : list json) (x : json) : list json :=
  if existsb (eqb x) acc then acc else acc ++ [x].

Definition set (v : json) : result (list json) :=
  xs ← iter v;
  if forallb hashable xs then Ok (foldl add [] xs) else Raise TypeError.

(** [sorted(l)] on hashable values, as a stable insertion sort. *)
Fixpoint insert (x : json) (l : list json) : result (list json) :=
  match l with
  | [] => Ok [x]
  | y :: l' =>
      b ← ltb y x;
      if b : bool then r ← insert x l'; Ok (y :: r) else Ok (x :: l)
  end.

Fixpoint sorted (l : list json) : result (list json) :=
  match l with
  | [] => Ok []
  | x :: l' => r ← sorted l'; insert x r
  end.

Fixpoint is_substring (pat s : string) : bool :=
  String.prefix pat s ||
  match s with
  | EmptyString => false
  | String _ s' => is_substring pat s'
  end.

(** [pat in v] for a string [pat]. *)
Definition contains (pat : string) (v : json) : result bool :=
  match v with
  | JStr s => Ok (is_substring pat s)
  | JArr l => Ok (existsb (eqb (JStr pat)) l)
  | JObj kvs => Ok (existsb (fun kv => String.eqb pat kv.1) kvs)
  | _ => Raise TypeError
  end.

(** [v[:n]]; slicing a dict raises ([TypeError] before Python 3.12,
    [KeyError] since). *)
Definition slice_to (v : json) (n : nat) : result json :=
  match v with
  | JArr l => Ok (JArr (take n l))
  | JStr s => Ok (JStr (String.substring 0 n s))
  | _ => Raise TypeError
  end.

End Py.

(** ** The fixer: [auto_fix_data] *)

(** The entries of [fixes_applied], one constructor per message template
    with the values it interpolates. *)
Inductive fix_msg :=
| RemovedDuplicates (title : json)
| Limited (title : json) (from to : nat)
| RemovedFilm (title : json)
| CinemaSummary (cinema_name : json) (original fixed : nat).

(** [3 if 'Regular' in cinema_name else 5] *)
Definition max_showtimes (cinema_name : json) : result nat :=
  regular ← Py.contains "Regular" cinema_name;
  Ok (if regular : bool then 3 else 5).

(** Body of [for film in original_films]; the state is
    [(fixed_films, fixes_applied)]. *)
Definition fix_film (cinema_name film : json) (st : list json * list fix_msg)
  : result (list json * list fix_msg) :=
  let '(fixed_films, fixes_applied) := st in
  title ← Py.get film "title" (JStr "Unknown");
  showtimes ← Py.get film "showtimes" (JArr []);
  unique_showtimes ← Py.set showtimes ≫= Py.sorted;
  n ← Py.len showtimes;
  let '(showtimes, fixes_applied) :=
    if length unique_showtimes <? n
    then (JArr unique_showtimes, fixes_applied ++ [RemovedDuplicates title])
    else (showtimes, fixes_applied) in
  max_showtimes ← max_showtimes cinema_name;
  n ← Py.len showtimes;
  '(showtimes, fixes_applied) ←
    (if max_showtimes <? n
     then s ← Py.slice_to showtimes max_showtimes;
          Ok (s, fixes_applied ++ [Limited title n max_showtimes])
     else Ok (showtimes, fixes_applied));
  n ← Py.len showtimes;
  if n =? 0
  then Ok (fixed_films, fixes_applied ++ [RemovedFilm title])
  else
    film ← Py.store film "showtimes" showtimes;
    film ← Py.store film "showtime_count" (JInt (Z.of_nat n));
    Ok (fixed_films ++ [film], fixes_applied).

(** Body of [for cinema in data.get('cinemas', [])]. The cinema dict is
    mutated in place; a JSON tree has no sharing, so the state carries the
    cinemas as they are after the mutation. *)
Definition fix_cinema (cinema : json) (st : list json * list fix_msg)
  : result (list json * list fix_msg) :=
  let '(cinemas, fixes_applied) := st in
  cinema_name ← Py.get cinema "name" (JStr "Unknown");
  original_films ← Py.get cinema "films" (JArr []);
  films ← Py.iter original_films;
  '(fixed_films, fixes_applied) ←
    for_each (fix_film cinema_name) films ([], fixes_applied);
  cinema ← Py.store cinema "films" (JArr fixed_films);
  n ← Py.len original_films;
  Ok (cinemas ++ [cinema],
      fixes_applied ++ [CinemaSummary cinema_name n (length fixed_films)]).

(** [data] after the loop: the mutated cinemas sit in the list stored under
    ['cinemas']. When the key is absent the loop ran over a fresh empty
    list, and when the value is a dict or a string the loop can only have
    finished if there was nothing to iterate; [data] is then as it was. *)
Definition write_back (data : json) (cinemas : list json) : json :=
  match data with
  | JObj kvs =>
      match Py.find "cinemas" kvs with
      | Some (JArr _) => JObj (Py.setitem "cinemas" (JArr cinemas) kvs)
      | _ => data
      end
  | _ => data
  end.

(** Lines 114-150: the in-memory transformation and its log. *)
Definition fix_data (data : json) : result (json * list fix_msg) :=
  cinemas ← Py.get data "cinemas" (JArr []) ≫= Py.iter;
  '(cinemas, fixes_applied) ← for_each fix_cinema cinemas ([], []);
  Ok (write_back data cinemas, fixes_applied).

(** ** The validator: [validate_cinema_data] *)

(** Hard issues and soft warnings, one constructor per message template. *)
Inductive issue :=
| TooManyShowtimes (cinema_name day title : json) (n : nat)
| DuplicateShowtimes (cinema_name day title : json)
| TooManyFilms (cinema_name day : json) (n : nat)
| DuplicateFilms (cinema_name day : json) (duplicates : list (json * nat))
| TotalFilms (total : nat).

Inductive warning :=
| NoShowtimes (cinema_name day title : json)
| HighFilmCount (cinema_name day : json) (n : nat).

Record cinema_stats := {
  total_films : nat;
  days : nat;
  films_by_day : list (json * nat)
}.

(** The report without its timestamp, which is read from the clock. *)
Record report := {
  valid : bool;
  stats : list (json * cinema_stats);
  issues : list issue;
  warnings : list warning;
  summary_total_issues : nat;
  summary_total_warnings : nat;
  summary_total_films : nat
}.

(** Body of the first [for film in films]: [films_by_day[day].append(film)]. *)
Definition group_film (film : json) (films_by_day : list (json * list json))
  : result (list (json * list json)) :=
  day ← Py.get film "day" (JStr "unknown");
  Py.update day (fun o => default [] o ++ [film]) films_by_day.

(** Body of [for film in day_films] (lines 45-61); the state is
    [(issues, warnings)]. The list [day_issues] is written and never read,
    it is left out. *)
Definition check_film (cinema_name day film : json)
    (st : list issue * list warning) : result (list issue * list warning) :=
  let '(issues, warnings) := st in
  showtimes ← Py.get film "showtimes" (JArr []);
  title ← Py.get film "title" (JStr "Unknown");
  n ← Py.len showtimes;
  let issues :=
    if 4 <? n then issues ++ [TooManyShowtimes cinema_name day title n]
    else issues in
  distinct ← Py.set showtimes;
  let issues :=
    if n =? length distinct then issues
    else issues ++ [DuplicateShowtimes cinema_name day title] in
  let warnings :=
    if n =? 0 then warnings ++ [NoShowtimes cinema_name day title]
    else warnings in
  Ok (issues, warnings).

(** Body of the second [for film in day_films]: [title_counts[title] += 1]. *)
Definition count_title (film : json) (title_counts : list (json * nat))
  : result (list (json * nat)) :=
  title ← Py.get film "title" (JStr "Unknown");
  Py.update title (fun o => default 0 o + 1) title_counts.

(** Body of [for day, day_films in films_by_day.items()]. *)
Definition check_day (cinema_name : json) (group : json * list json)
    (st : list issue * list warning) : result (list issue * list warning) :=
  let '(day, day_films) := group in
  '(issues, warnings) ← for_each (check_film cinema_name day) day_films st;
  let n := length day_films in
  let '(issues, warnings) :=
    if 30 <? n then (issues ++ [TooManyFilms cinema_name day n], warnings)
    else if 20 <? n then (issues, warnings ++ [HighFilmCount cinema_name day n])
    else (issues, warnings) in
  title_counts ← for_each count_title day_films [];
  let duplicates := List.filter (fun tc => 1 <? tc.2) title_counts in
  let issues :=
    match duplicates with
    | [] => issues
    | _ => issues ++ [DuplicateFilms cinema_name day duplicates]
    end in
  Ok (issues, warnings).

(** Body of [for cinema in data.get('cinemas', [])]; the state is
    [(issues, warnings, stats)]. *)
Definition check_cinema (cinema : json)
    (st : list issue * list warning * list (json * cinema_stats))
  : result (list issue * list warning * list (json * cinema_stats)) :=
  let '(issues, warnings, stats) := st in
  cinema_name ← Py.get cinema "name" (JStr "Unknown");
  films ← Py.get cinema "films" (JArr []);
  film_list ← Py.iter films;
  films_by_day ← for_each group_film film_list [];
  n ← Py.len films;
  stats ← Py.update cinema_name
            (fun _ => {| total_films := n;
                         days := length films_by_day;
                         films_by_day := (fun g => (g.1, length g.2)) <$> films_by_day |})
            stats;
  '(issues, warnings) ← for_each (check_day cinema_name) films_by_day (issues, warnings);
  Ok (issues, warnings, stats).

(** Lines 20-97: the report of a loaded document. *)
Definition validate (data : json) : result report :=
  cinemas ← Py.get data "cinemas" (JArr []) ≫= Py.iter;
  '(issues, warnings, stats) ← for_each check_cinema cinemas ([], [], []);
  let total := sum_list ((fun s => total_films s.2) <$> stats) in
  let issues := if 500 <? total then issues ++ [TotalFilms total] else issues in
  Ok {| valid := length issues =? 0;
        stats := stats;
        issues := issues;
        warnings := warnings;
        summary_total_issues := length issues;
        summary_total_warnings := length warnings;
        summary_total_films := total |}.

(** ** Files *)

(** A file is represented by what [json.load] makes of its content. *)
Inductive file :=
| NotJson
| Json (data : json).

(** [with open(path) as f: json.load(f)] *)
Definition load (files : gmap string file) (path : string) : result json :=
  match files !! path with
  | None => Raise FileNotFoundError
  | Some NotJson => Raise JSONDecodeError
  | Some (Json data) => Ok data
  end.

(** [shutil.copy(src, dst)] *)
Definition copy (files : gmap string file) (src dst : string)
  : result (gmap string file) :=
  match files !! src with
  | None => Raise FileNotFoundError
  | Some f => Ok (<[dst := f]> files)
  end.

Inductive validation :=
| CannotRead (e : exn)
| Report (r : report).

Definition validate_cinema_data (files : gmap string file) (data_file : string)
  : result validation :=
  match load files data_file with
  | Raise e => Ok (CannotRead e)
  | Ok data => r ← validate data; Ok (Report r)
  end.

(** What a call of [auto_fix_data] leaves behind when it returns: the
    returned flag, the files and the fixes it printed. *)
Record fixed := {
  returned : bool;
  files_after : gmap string file;
  printed : list fix_msg
}.

Definition auto_fix_data (files : gmap string file) (data_file : string)
    (backup : bool) : result fixed :=
  files ← (if backup then copy files data_file (data_file +:+ ".backup")
           else Ok files);
  match load files data_file with
  | Raise e => Ok {| returned := false; files_after := files; printed := [] |}
  | Ok data =>
      '(data, fixes_applied) ← fix_data data;
      Ok {| returned := true;
            files_after := <[data_file := Json data]> files;
            printed := fixes_applied |}
  end.

(** ** Datasets of the documented shape

The shape of section 3 of the specification: every field may be
absent, and a field that is present has the type the data model gives
it. The predicates are boolean so that they can be run. *)

Definition is_str (v : json) : bool :=
  match v with JStr _ => true | _ => false end.

Definition is_arr_of (p : json -> bool) (v : json) : bool :=
  match v with JArr l => forallb p l | _ => false end.

Definition opt_field (p : json -> bool) (k : string) (kvs : list (string * json))
  : bool :=
  match Py.find k kvs with Some v => p v | None => true end.

Definition film_ok (film : json) : bool :=
  match film with
  | JObj kvs =>
      opt_field is_str "title" kvs && opt_field is_str "day" kvs &&
      opt_field (is_arr_of is_str) "showtimes" kvs
  | _ => false
  end.

Definition cinema_ok (cinema : json) : bool :=
  match cinema with
  | JObj kvs =>
      opt_field is_str "name" kvs && opt_field (is_arr_of film_ok) "films" kvs
  | _ => false
  end.

Definition dataset_ok (data : json) : bool :=
  match data with
  | JObj kvs => opt_field (is_arr_of cinema_ok) "cinemas" kvs
  | _ => false
  end.

(** Reading a record with the documented defaults. *)
Definition field (k : string) (v : json) : option json :=
  match v with JObj kvs => Py.find k kvs | _ => None end.

Definition items (v : json) : list json :=
  match v with JArr l => l | _ => [] end.

Definition str_of (v : json) : option string :=
  match v with JStr s => Some s | _ => None end.

Definition cinemas_of (data : json) : list json :=
  items (default (JArr []) (field "cinemas" data)).

Definition films_of (cinema : json) : list json :=
  items (default (JArr []) (field "films" cinema)).

Definition name_str (cinema : json) : string :=
  default "Unknown" (field "name" cinema ≫= str_of).

Definition day_str (film : json) : string :=
  default "unknown" (field "day" film ≫= str_of).

Definition title_str (film : json) : string :=
  default "Unknown" (field "title" film ≫= str_of).

Definition showtimes_of (film : json) : list string :=
  omap str_of (items (default (JArr []) (field "showtimes" film))).

(** ** Lists of showtimes: distinct values and lexical order *)

Section Distinct.
Context {A : Type} `{EqDecision A}.

Definition add_distinct (acc : list A) (x : A) : list A :=
  if bool_decide (x ∈ acc) then acc else acc ++ [x].

  (** The distinct values of a list, in order of first occurrence. *)
Definition distinct (l : list A) : list A := foldl add_distinct [] l.
End Distinct.

Fixpoint insert_str (x : string) (l : list string) : list string :=
  match l with
  | [] => [x]
  | y :: l' => if String.ltb y x then y :: insert_str x l' else x :: l
  end.

Fixpoint sort_str (l : list string) : list string :=
  match l with
  | [] => []
  | x :: l' => insert_str x (sort_str l')
  end.

Definition str_lt (a b : string) : Prop := String.ltb a b = true.
Definition str_le (a b : string) : Prop := String.ltb b a = false.

(** Strictly ascending in lexical order: each entry is below the next. *)
Definition ascending (l : list string) : Prop := Sorted str_lt l.

(** A cinema name contains the word. *)
Definition contains_regular (name : string) : Prop :=
  ∃ pre post, name = pre +:+ "Regular" +:+ post.

(** ** What the fixer computes on a dataset of the documented shape

The loops of [auto_fix_data] in closed form, over the readers above;
the section on the fixer proves that the embedding computes them. *)

Definition cap_of (name : string) : nat :=
  if Py.is_substring "Regular" name then 3 else 5.

(** Fix 1: the sorted distinct values replace the list only when there
    are fewer of them. *)
Definition deduplicated (ss : list string) : list string :=
  let unique := sort_str (distinct ss) in
  if length unique <? length ss then unique else ss.

Definition fixed_showtimes (cap : nat) (ss : list string) : list string :=
  take cap (deduplicated ss).

Definition fixed_film (cap : nat) (film : json) : option json :=
  let ss := fixed_showtimes cap (showtimes_of film) in
  match ss, film with
  | _ :: _, JObj kvs =>
      Some (JObj (Py.setitem "showtime_count" (JInt (Z.of_nat (length ss)))
                    (Py.setitem "showtimes" (JArr (JStr <$> ss)) kvs)))
  | _, _ => None
  end.

Definition film_fixes (cap : nat) (film : json) : list fix_msg :=
  let ss := showtimes_of film in
  let title := JStr (title_str film) in
  (if length (sort_str (distinct ss)) <? length ss
   then [RemovedDuplicates title] else []) ++
  (if cap <? length (deduplicated ss)
   then [Limited title (length (deduplicated ss)) cap] else []) ++
  (match fixed_showtimes cap ss with [] => [RemovedFilm title] | _ => [] end).

Definition fixed_films (cinema : json) : list json :=
  omap (fixed_film (cap_of (name_str cinema))) (films_of cinema).

Definition fixed_cinema (cinema : json) : json :=
  match cinema with
  | JObj kvs => JObj (Py.setitem "films" (JArr (fixed_films cinema)) kvs)
  | _ => cinema
  end.

Definition cinema_fixes (cinema : json) : list fix_msg :=
  concat (film_fixes (cap_of (name_str cinema)) <$> films_of cinema) ++
  [CinemaSummary (JStr (name_str cinema)) (length (films_of cinema))
     (length (fixed_films cinema))].

Definition is_summary (m : fix_msg) : bool :=
  match m with CinemaSummary _ _ _ => true | _ => false end.

(** ** What the validator computes on a dataset of the documented shape *)

(** A dict filled by one pass over [xs]: the keys in order of first
    appearance, each with a value computed from the entries of that key. *)
Definition table {X V : Type} (key : X -> string) (g : list X -> V) (xs : list X)
  : list (json * V) :=
  (fun k => (JStr k, g (filter (fun x => key x = k) xs))) <$> distinct (key <$> xs).

(** The (cinema, day) groups of a cinema: days in order of first
    appearance, films in film order. *)
Definition groups (films : list json) : list (json * list json) :=
  table day_str id films.

Definition film_issues (name day : json) (film : json) : list issue :=
  let ss := showtimes_of film in
  (if 4 <? length ss
   then [TooManyShowtimes name day (JStr (title_str film)) (length ss)] else []) ++
  (if bool_decide (NoDup ss) then []
   else [DuplicateShowtimes name day (JStr (title_str film))]).

Definition film_warnings (name day : json) (film : json) : list warning :=
  if length (showtimes_of film) =? 0
  then [NoShowtimes name day (JStr (title_str film))] else [].

Definition count_issue (name day : json) (n : nat) : list issue :=
  if 30 <? n then [TooManyFilms name day n] else [].

Definition count_warning (name day : json) (n : nat) : list warning :=
  if 30 <? n then [] else if 20 <? n then [HighFilmCount name day n] else [].

Definition duplicate_titles (films : list json) : list (json * nat) :=
  List.filter (fun tc => 1 <? tc.2) (table title_str length films).

Definition duplicate_issue (name day : json) (films : list json) : list issue :=
  match duplicate_titles films with
  | [] => []
  | dups => [DuplicateFilms name day dups]
  end.

(** Rule order within a group, as the specification lists it. *)
Definition group_issues (name : json) (group : json * list json) : list issue :=
  concat (film_issues name group.1 <$> group.2) ++
  count_issue name group.1 (length group.2) ++
  duplicate_issue name group.1 group.2.

Definition group_warnings (name : json) (group : json * list json) : list warning :=
  concat (film_warnings name group.1 <$> group.2) ++
  count_warning name group.1 (length group.2).

Definition cinema_issues (cinema : json) : list issue :=
  concat (group_issues (JStr (name_str cinema)) <$> groups (films_of cinema)).

Definition cinema_warnings (cinema : json) : list warning :=
  concat (group_warnings (JStr (name_str cinema)) <$> groups (films_of cinema)).

Definition stat_of (cinema : json) : cinema_stats :=
  {| total_films := length (films_of cinema);
     days := length (groups (films_of cinema));
     films_by_day := (fun g => (g.1, length g.2)) <$> groups (films_of cinema) |}.

(** [stats[cinema_name] = ...] keeps what the last record of a name wrote. *)
Definition last_stat (cinemas : list json) : cinema_stats :=
  stat_of (default JNull (last cinemas)).

Definition stats_of (data : json) : list (json * cinema_stats) :=
  table name_str last_stat (cinemas_of data).

Definition total_of (data : json) : nat :=
  sum_list ((fun s => total_films s.2) <$> stats_of data).

Definition global_issue (total : nat) : list issue :=
  if 500 <? total then [TotalFilms total] else [].

(** The order of the report's messages in the words of the specification:
    cinemas in input order, within a cinema the days in order of first
    appearance, within a group the rules in rule order, the global check
    last. *)
Definition spec_issues (data : json) : list issue :=
  concat (cinema_issues <$> cinemas_of data) ++ global_issue (total_of data).

Definition spec_warnings (data : json) : list warning :=
  concat (cinema_warnings <$> cinemas_of data).

Definition spec_report (data : json) : report :=
  {| valid := length (spec_issues data) =? 0;
     stats := stats_of data;
     issues := spec_issues data;
     warnings := spec_warnings data;
     summary_total_issues := length (spec_issues data);
     summary_total_warnings := length (spec_warnings data);
     summary_total_films := total_of data |}.

Definition is_global (i : issue) : bool :=
  match i with TotalFilms _ => true | _ => false end.

Definition is_count_issue (i : issue) : bool :=
  match i with TooManyFilms _ _ _ => true | _ => false end.

Definition is_count_warning (w : warning) : bool :=
  match w with HighFilmCount _ _ _ => true | _ => false end.

(** ** Records with their defaults written in *)

Definition with_default (k : string) (d : json) (kvs : list (string * json))
  : list (string * json) :=
  match Py.find k kvs with
  | Some _ => kvs
  | None => kvs ++ [(k, d)]
  end.

Definition film_defaults (film : json) : json :=
  match film with
  | JObj kvs =>
      JObj (with_default "showtimes" (JArr [])
              (with_default "title" (JStr "Unknown")
                 (with_default "day" (JStr "unknown") kvs)))
  | _ => film
  end.

Definition cinema_defaults (cinema : json) : json :=
  match cinema with
  | JObj kvs =>
      JObj (Py.setitem "films" (JArr (film_defaults <$> films_of cinema))
              (with_default "name" (JStr "Unknown") kvs))
  | _ => cinema
  end.

Definition dataset_defaults (data : json) : json :=
  match data with
  | JObj kvs =>
      JObj (Py.setitem "cinemas" (JArr (cinema_defaults <$> cinemas_of data)) kvs)
  | _ => data
  end.

(** ** Frames of the fixer *)

(** A film record apart from the two fields the fixer writes. *)
Definition untouched (film film' : json) : Prop :=
  ∀ k, k ≠ "showtimes" → k ≠ "showtime_count" → field k film' = field k film.

(** ** Sample documents *)

Definition film_of (title day : string) (showtimes : list string) : json :=
  JObj [("title", JStr title); ("day", JStr day);
        ("showtimes", JArr (JStr <$> showtimes)); ("screen", JInt 2)].

(** Two cinemas, one of them without a name; films with repeated,
    unsorted, too many and no showtimes, and one without any field. *)
Definition sample_dataset : json :=
  JObj [("source", JStr "scraper");
        ("cinemas",
         JArr [JObj [("name", JStr "Regular Cinema"); ("city", JStr "Cambridge");
                     ("films",
                      JArr [film_of "Alien" "Mon" ["19:00"; "19:00"; "21:00"; "21:00"; "23:00"];
                            film_of "Brazil" "Mon" ["21:00"; "19:00"];
                            film_of "Alien" "Tue" ["10:00"; "12:00"; "14:00"; "16:00"; "18:00"; "20:00"];
                            film_of "Casablanca" "Mon" [];
                            JObj []])];
               JObj [("films", JArr [film_of "Dune" "Mon" ["18:00"]])]])].

(** One film whose two showtimes are distinct and not in order. *)
Definition unsorted_dataset : json :=
  JObj [("cinemas",
         JArr [JObj [("name", JStr "Odeon");
                     ("films", JArr [film_of "Brazil" "Mon" ["21:00"; "19:00"]])]])].

(** Two records of the same cinema name with 251 films each. *)
Definition twin_dataset : json :=
  JObj [("cinemas",
         JArr [JObj [("name", JStr "Odeon");
                     ("films", JArr (replicate 251 (film_of "Alien" "Mon" ["19:00"])))];
               JObj [("name", JStr "Odeon");
                     ("films", JArr (replicate 251 (film_of "Brazil" "Tue" ["21:00"])))]])].

(** The same two records without a [name] key: both read as "Unknown". *)
Definition nameless_dataset : json :=
  JObj [("cinemas",
         JArr [JObj [("films", JArr (replicate 251 (film_of "Alien" "Mon" ["19:00"])))];
               JObj [("films", JArr (replicate 251 (film_of "Brazil" "Tue" ["21:00"])))]])].

(** A document that parses and whose [cinemas] is [null]. *)
Definition null_cinemas : json := JObj [("cinemas", JNull)].

Definition data_file : string := "website_data_by_cinema.json".

(** ** Kinds of messages *)

Definition is_removed (m : fix_msg) : bool :=
  match m with RemovedFilm _ => true | _ => false end.

Definition is_duplicate_films (i : issue) : bool :=
  match i with DuplicateFilms _ _ _ => true | _ => false end.

(** The hard issues that can remain once the fixer has run: none for
    repeated showtimes, and one for an overcount only with five showtimes
    in a cinema whose name is without "Regular". *)
Definition left_by_fixer (i : issue) : Prop :=
  match i with
  | DuplicateShowtimes _ _ _ => False
  | TooManyShowtimes cinema_name _ _ n =>
      n = 5 ∧ ∃ name, cinema_name = JStr name ∧ ¬ contains_regular name
  | _ => True
  end.

Definition has_showtimes (w : warning) : Prop :=
  match w with NoShowtimes _ _ _ => False | _ => True end.

(** The values in which Python cannot look for a substring or a member. *)
Definition no_container (v : json) : bool :=
  match v with JNull | JBool _ | JInt _ => true | _ => false end.

(** ** The script: lines 162-192 *)

(** [report['summary']] on the failure result raises [KeyError]; any other
    exception is one that the two functions let through. *)
Inductive main_exn :=
| KeyError
| Uncaught (e : exn).

(** How a run that ends normally went. *)
Inductive session :=
| LooksGood (r : report)
| Repaired (r : report) (fixes : list fix_msg) (new_report : report)
| NotRepaired (r : report).

(** The end of the script: the session and the files it leaves, or the
    exception of the traceback (the files are then not tracked). *)
Inductive main_result :=
| Exit (s : session) (files : gmap string file)
| Traceback (e : main_exn).

Definition main (files : gmap string file) : main_result :=
  match validate_cinema_data files data_file with
  | Raise e => Traceback (Uncaught e)
  | Ok (CannotRead _) => Traceback KeyError
  | Ok (Report r) =>
      if valid r then Exit (LooksGood r) files
      else
        match auto_fix_data files data_file true with
        | Raise e => Traceback (Uncaught e)
        | Ok fx =>
            if returned fx then
              match validate_cinema_data (files_after fx) data_file with
              | Raise e => Traceback (Uncaught e)
              | Ok (CannotRead _) => Traceback KeyError
              | Ok (Report new_report) =>
                  Exit (Repaired r (printed fx) new_report) (files_after fx)
              end
            else Exit (NotRepaired r) (files_after fx)
        end
  end.

(** A cinema without "Regular" in its name and a film with five distinct
    showtimes: the fixer keeps all five and the validator still objects. *)
Definition imax_dataset : json :=
  JObj [("cinemas",
         JArr [JObj [("name", JStr "IMAX");
                     ("films",
                      JArr [film_of "Dune" "Mon"
                              ["10:00"; "13:00"; "16:00"; "19:00"; "22:00"; "22:00"]])]])].

(** * Properties *)

(** ** The loop combinator *)

Lemma for_each_app {A S : Type} (body : A -> S -> result S) xs ys s :
  for_each body (xs ++ ys) s = for_each body xs s ≫= for_each body ys.
Proof.
  revert s. induction xs as [|x xs IH]; intros s; simpl; [done|].
  destruct (body x s) as [s'|e]; simpl; [apply IH | done].
Qed.

Lemma for_each_snoc {A S : Type} (body : A -> S -> result S) xs x s :
  for_each body (xs ++ [x]) s = for_each body xs s ≫= body x.
Proof.
  rewrite for_each_app. destruct (for_each body xs s) as [s'|e]; simpl; [|done].
  by destruct (body x s').
Qed.

(** ** Dicts with string keys *)

Lemma find_setitem_eq k v kvs : Py.find k (Py.setitem k v kvs) = Some v.
Proof.
  induction kvs as [|[k' v'] kvs IH]; simpl.
  - by rewrite String.eqb_refl.
  - destruct (String.eqb_spec k k') as [->|Hne]; simpl.
    + by rewrite String.eqb_refl.
    + by destruct (String.eqb_spec k k').
Qed.

Lemma find_setitem_ne k k' v kvs :
  k ≠ k' → Py.find k' (Py.setitem k v kvs) = Py.find k' kvs.
Proof.
  intros Hne. induction kvs as [|[k0 v0] kvs IH]; simpl.
  - by destruct (String.eqb_spec k' k) as [->|].
  - destruct (String.eqb_spec k k0) as [->|]; simpl.
    + by destruct (String.eqb_spec k' k0) as [->|].
    + by rewrite IH.
Qed.

Lemma setitem_id k v kvs : Py.find k kvs = Some v → Py.setitem k v kvs = kvs.
Proof.
  induction kvs as [|[k' v'] kvs IH]; simpl; [done|].
  destruct (String.eqb_spec k k') as [->|]; [congruence|].
  intros H. by rewrite IH.
Qed.

Lemma find_app_None k kvs d :
  Py.find k kvs = None → Py.find k (kvs ++ [(k, d)]) = Some d.
Proof.
  induction kvs as [|[k' v'] kvs IH]; simpl.
  - by rewrite String.eqb_refl.
  - by destruct (String.eqb_spec k k').
Qed.

Lemma find_app_ne k k' kvs d :
  k ≠ k' → Py.find k' (kvs ++ [(k, d)]) = Py.find k' kvs.
Proof.
  intros Hne. induction kvs as [|[k0 v0] kvs IH]; simpl.
  - by destruct (String.eqb_spec k' k) as [->|].
  - by rewrite IH.
Qed.

(** ** Distinct values *)

Section DistinctFacts.
Context {A : Type} `{EqDecision A}.
Implicit Types l : list A.

Lemma distinct_snoc l x : distinct (l ++ [x]) = add_distinct (distinct l) x.
Proof. unfold distinct. by rewrite foldl_app. Qed.

Lemma elem_of_distinct x l : x ∈ distinct l ↔ x ∈ l.
Proof.
  induction l as [|y l IH] using rev_ind; [done|].
  rewrite distinct_snoc. unfold add_distinct.
  case_bool_decide as Hin.
  - rewrite IH, elem_of_app, list_elem_of_singleton. split; [auto|].
    intros [?| ->]; [done|by apply IH].
  - by rewrite !elem_of_app, IH.
Qed.

Lemma NoDup_distinct l : NoDup (distinct l).
Proof.
  induction l as [|y l IH] using rev_ind; [constructor|].
  rewrite distinct_snoc. unfold add_distinct.
  case_bool_decide; [done|].
  apply NoDup_app. split_and!; [done| |apply NoDup_singleton].
  intros z Hz ->%list_elem_of_singleton. done.
Qed.

Lemma length_distinct l : length (distinct l) ≤ length l.
Proof.
  induction l as [|y l IH] using rev_ind; [done|].
  rewrite distinct_snoc. unfold add_distinct.
  case_bool_decide; rewrite !length_app; simpl; lia.
Qed.

Lemma distinct_id l : NoDup l → distinct l = l.
Proof.
  induction l as [|y l IH] using rev_ind; [done|].
  intros [Hl [Hy _]]%NoDup_app.
  rewrite distinct_snoc, IH by done. unfold add_distinct.
  case_bool_decide as Hin; [|done].
  exfalso. apply (Hy y Hin). by apply list_elem_of_singleton.
Qed.

Lemma distinct_length_NoDup l : length (distinct l) = length l → NoDup l.
Proof.
  induction l as [|y l IH] using rev_ind; [constructor|].
  rewrite distinct_snoc. unfold add_distinct.
  pose proof (length_distinct l).
  case_bool_decide as Hin; rewrite !length_app; simpl; intros Hlen; [lia|].
  apply NoDup_app. split_and!; [apply IH; lia| |apply NoDup_singleton].
  intros z Hz ->%list_elem_of_singleton. by apply Hin, elem_of_distinct.
Qed.

Lemma distinct_length_iff l : length (distinct l) = length l ↔ NoDup l.
Proof.
  split; [apply distinct_length_NoDup|]. intros H. by rewrite distinct_id.
Qed.
End DistinctFacts.

(** ** Lexical order and sorting *)

Lemma str_le_neq_lt a b : str_le a b → a ≠ b → str_lt a b.
Proof.
  unfold str_le, str_lt, String.ltb. intros Hle Hne.
  rewrite (String.compare_antisym b a) in Hle.
  destruct (String.compare a b) eqn:Hc; simpl in *; try done.
  by apply String.compare_eq_iff in Hc.
Qed.

Lemma str_lt_irrefl a : ¬ str_lt a a.
Proof.
  unfold str_lt, String.ltb.
  pose proof (String.compare_antisym a a) as H.
  by destruct (String.compare a a).
Qed.

Lemma elem_of_insert_str y x l : y ∈ insert_str x l ↔ y = x ∨ y ∈ l.
Proof.
  induction l as [|z l IH]; simpl; [set_solver|].
  destruct (String.ltb z x); set_solver.
Qed.

Lemma elem_of_sort_str y l : y ∈ sort_str l ↔ y ∈ l.
Proof.
  induction l as [|z l IH]; simpl; [done|].
  rewrite elem_of_insert_str. set_solver.
Qed.

Lemma length_insert_str x l : length (insert_str x l) = S (length l).
Proof.
  induction l as [|z l IH]; simpl; [done|].
  destruct (String.ltb z x); simpl; lia.
Qed.

Lemma length_sort_str l : length (sort_str l) = length l.
Proof.
  induction l as [|z l IH]; simpl; [done|].
  rewrite length_insert_str. lia.
Qed.

Lemma NoDup_insert_str x l : x ∉ l → NoDup l → NoDup (insert_str x l).
Proof.
  induction l as [|z l IH]; simpl; intros Hx Hl.
  - apply NoDup_singleton.
  - apply NoDup_cons in Hl as [Hz Hl].
    destruct (String.ltb z x).
    + apply NoDup_cons. split; [|apply IH; set_solver].
      rewrite elem_of_insert_str. set_solver.
    + apply NoDup_cons. split; [done|]. by apply NoDup_cons.
Qed.

Lemma NoDup_sort_str l : NoDup l → NoDup (sort_str l).
Proof.
  induction l as [|z l IH]; simpl; [done|].
  intros [Hz Hl]%NoDup_cons. apply NoDup_insert_str; [|by apply IH].
  by rewrite elem_of_sort_str.
Qed.

Lemma HdRel_insert_str y x l :
  HdRel str_lt y l → str_lt y x → HdRel str_lt y (insert_str x l).
Proof.
  destruct l as [|z l]; simpl; intros Hhd Hyx; [by constructor|].
  destruct (String.ltb z x); constructor; [|done].
  by inversion Hhd.
Qed.

Lemma ascending_insert_str x l :
  x ∉ l → ascending l → ascending (insert_str x l).
Proof.
  unfold ascending. induction l as [|z l IH]; simpl; intros Hx Hl.
  - repeat constructor.
  - inversion Hl as [|? ? Hl' Hhd]; subst.
    destruct (String.ltb z x) eqn:Hzx.
    + constructor; [apply IH; set_solver|]. by apply HdRel_insert_str.
    + constructor; [done|]. constructor.
      apply str_le_neq_lt; [done|set_solver].
Qed.

Lemma ascending_sort_str l : NoDup l → ascending (sort_str l).
Proof.
  induction l as [|z l IH]; simpl; [constructor|].
  intros [Hz Hl]%NoDup_cons. apply ascending_insert_str; [|by apply IH].
  by rewrite elem_of_sort_str.
Qed.

Lemma ascending_take n l : ascending l → ascending (take n l).
Proof.
  unfold ascending. revert n. induction l as [|z l IH]; intros [|n] Hl; simpl;
    try constructor.
  - inversion Hl; subst. by apply IH.
  - inversion Hl as [|? ? _ Hhd]; subst.
    destruct l, n; simpl; constructor. by inversion Hhd.
Qed.

(** ** Python primitives on lists of strings *)

Lemma existsb_eqb_str x acc :
  existsb (Py.eqb (JStr x)) (JStr <$> acc) = bool_decide (x ∈ acc).
Proof.
  induction acc as [|y acc IH]; [done|].
  rewrite fmap_cons. cbn [existsb]. rewrite IH.
  change (Py.eqb (JStr x) (JStr y)) with (String.eqb x y).
  destruct (String.eqb_spec x y) as [->|Hne]; simpl.
  - symmetry. apply bool_decide_eq_true. by left.
  - apply bool_decide_ext. rewrite elem_of_cons. naive_solver.
Qed.

Lemma foldl_add_str acc ss :
  foldl Py.add (JStr <$> acc) (JStr <$> ss) = JStr <$> foldl add_distinct acc ss.
Proof.
  revert acc. induction ss as [|x ss IH]; intros acc; simpl; [done|].
  unfold Py.add at 2, add_distinct at 2. rewrite existsb_eqb_str.
  case_bool_decide; [apply IH|].
  rewrite <- IH. by rewrite fmap_app.
Qed.

Lemma hashable_strs ss : forallb Py.hashable (JStr <$> ss) = true.
Proof. by induction ss. Qed.

Lemma set_strs ss : Py.set (JArr (JStr <$> ss)) = Ok (JStr <$> distinct ss).
Proof.
  unfold Py.set. simpl. rewrite hashable_strs.
  f_equal. apply (foldl_add_str [] ss).
Qed.

Lemma insert_strs x l :
  Py.insert (JStr x) (JStr <$> l) = Ok (JStr <$> insert_str x l).
Proof.
  induction l as [|y l IH]; [done|].
  rewrite fmap_cons. cbn [Py.insert]. rewrite IH.
  change (Py.ltb (JStr y) (JStr x)) with (Ok (String.ltb y x)).
  simpl. by destruct (String.ltb y x).
Qed.

Lemma sorted_strs l : Py.sorted (JStr <$> l) = Ok (JStr <$> sort_str l).
Proof.
  induction l as [|y l IH]; [done|].
  rewrite fmap_cons. cbn [Py.sorted]. rewrite IH. apply insert_strs.
Qed.

Lemma append_cons a s t : String a s +:+ t = String a (s +:+ t).
Proof. reflexivity. Qed.

Lemma prefix_spec pat s : String.prefix pat s = true ↔ ∃ post, s = pat +:+ post.
Proof.
  revert s. induction pat as [|a pat IH]; intros s; simpl.
  - split; [|by destruct s]. intros _. by exists s.
  - destruct s as [|b s]; simpl.
    + split; [done|]. by intros [? ?].
    + destruct (Ascii.ascii_dec a b) as [->|Hne].
      * rewrite IH.
        split; intros [post Hp]; exists post; rewrite append_cons in *; congruence.
      * split; [done|]. intros [? ?]. rewrite append_cons in *. congruence.
Qed.

Lemma is_substring_spec pat s :
  Py.is_substring pat s = true ↔ ∃ pre post, s = pre +:+ pat +:+ post.
Proof.
  induction s as [|a s IH]; cbn [Py.is_substring];
    rewrite orb_true_iff, prefix_spec.
  - split.
    + intros [[post Hp]|?]; [|done]. by exists "", post.
    + intros (pre & post & Hp). left. destruct pre; [|done]. by exists post.
  - rewrite IH. split.
    + intros [[post Hp]|(pre & post & Hp)].
      * by exists "", post.
      * exists (String a pre), post. by rewrite append_cons, Hp.
    + intros (pre & post & Hp). destruct pre as [|b pre];
        [change ("" +:+ pat +:+ post) with (pat +:+ post) in Hp
        |rewrite append_cons in Hp].
      * left. by exists post.
      * right. exists pre, post. congruence.
Qed.

Lemma cap_of_regular name : contains_regular name → cap_of name = 3.
Proof.
  intros H%is_substring_spec. unfold cap_of. by rewrite H.
Qed.

Lemma cap_of_other name : ¬ contains_regular name → cap_of name = 5.
Proof.
  intros H. unfold cap_of.
  destruct (Py.is_substring "Regular" name) eqn:E; [|done].
  by apply is_substring_spec in E.
Qed.

(** ** Reading records of the documented shape *)

Lemma is_arr_of_str v :
  is_arr_of is_str v = true → v = JArr (JStr <$> omap str_of (items v)).
Proof.
  destruct v as [| | | |l|]; simpl; try done.
  intros H. f_equal. induction l as [|[] l IH]; simpl in *; try done.
  f_equal. by apply IH.
Qed.

Lemma opt_str k d kvs :
  opt_field is_str k kvs = true →
  default (JStr d) (Py.find k kvs) = JStr (default d (Py.find k kvs ≫= str_of)).
Proof. unfold opt_field. by destruct (Py.find k kvs) as [[]|]. Qed.

Lemma opt_strs k kvs :
  opt_field (is_arr_of is_str) k kvs = true →
  default (JArr []) (Py.find k kvs) =
  JArr (JStr <$> omap str_of (items (default (JArr []) (Py.find k kvs)))).
Proof.
  unfold opt_field. destruct (Py.find k kvs) as [v|]; simpl; [|done].
  apply is_arr_of_str.
Qed.

Lemma opt_arr p k kvs :
  opt_field (is_arr_of p) k kvs = true →
  default (JArr []) (Py.find k kvs) = JArr (items (default (JArr []) (Py.find k kvs)))
  ∧ forallb p (items (default (JArr []) (Py.find k kvs))) = true.
Proof.
  unfold opt_field. destruct (Py.find k kvs) as [v|]; simpl; [|done].
  by destruct v.
Qed.

Lemma film_ok_inv film :
  film_ok film = true →
  ∃ kvs, film = JObj kvs
    ∧ Py.get film "title" (JStr "Unknown") = Ok (JStr (title_str film))
    ∧ Py.get film "day" (JStr "unknown") = Ok (JStr (day_str film))
    ∧ Py.get film "showtimes" (JArr []) = Ok (JArr (JStr <$> showtimes_of film)).
Proof.
  destruct film as [| | | | |kvs]; simpl; try done.
  rewrite !andb_true_iff. intros [[Ht Hd] Hs]. exists kvs.
  unfold title_str, day_str, showtimes_of. simpl.
  split_and!; [done|f_equal..].
  - by apply opt_str.
  - by apply opt_str.
  - by apply opt_strs.
Qed.

Lemma cinema_ok_inv cinema :
  cinema_ok cinema = true →
  ∃ kvs, cinema = JObj kvs
    ∧ Py.get cinema "name" (JStr "Unknown") = Ok (JStr (name_str cinema))
    ∧ Py.get cinema "films" (JArr []) = Ok (JArr (films_of cinema))
    ∧ forallb film_ok (films_of cinema) = true.
Proof.
  destruct cinema as [| | | | |kvs]; simpl; try done.
  rewrite !andb_true_iff. intros [Hn Hf]. exists kvs.
  unfold name_str, films_of. simpl.
  apply opt_arr in Hf as [Hf1 Hf2].
  split_and!; [done|f_equal..|done]; [by apply opt_str|done].
Qed.

Lemma dataset_ok_inv data :
  dataset_ok data = true →
  ∃ kvs, data = JObj kvs
    ∧ Py.get data "cinemas" (JArr []) = Ok (JArr (cinemas_of data))
    ∧ forallb cinema_ok (cinemas_of data) = true.
Proof.
  destruct data as [| | | | |kvs]; simpl; try done.
  intros [H1 H2]%opt_arr. exists kvs. unfold cinemas_of. simpl.
  split_and!; [done|by f_equal|done].
Qed.

(** ** The fixer in closed form *)

Lemma bind_Ok {A B : Type} (a : A) (f : A -> result B) : (Ok a ≫= f) = f a.
Proof. done. Qed.

(** Fix 2 and fix 3 on a list of strings [d] that fix 1 left. *)
Lemma limit_and_store cap title kvs d fixed log :
  (n ← Py.len (JArr (JStr <$> d));
   '(showtimes, fixes_applied) ←
     (if cap <? n
      then s ← Py.slice_to (JArr (JStr <$> d)) cap;
           Ok (s, log ++ [Limited title n cap])
      else Ok (JArr (JStr <$> d), log));
   n ← Py.len showtimes;
   if n =? 0
   then Ok (fixed, fixes_applied ++ [RemovedFilm title])
   else
     film ← Py.store (JObj kvs) "showtimes" showtimes;
     film ← Py.store film "showtime_count" (JInt (Z.of_nat n));
     Ok (fixed ++ [film], fixes_applied)) =
  Ok (fixed ++
      option_list
        match take cap d with
        | [] => None
        | _ :: _ =>
            Some (JObj (Py.setitem "showtime_count"
                          (JInt (Z.of_nat (length (take cap d))))
                          (Py.setitem "showtimes" (JArr (JStr <$> take cap d)) kvs)))
        end,
      log ++
      (if cap <? length d then [Limited title (length d) cap] else []) ++
      match take cap d with [] => [RemovedFilm title] | _ => [] end).
Proof.
  cbn [Py.len]. rewrite bind_Ok, length_fmap.
  assert (∀ (t : list string) (log' : list fix_msg),
    (n ← Py.len (JArr (JStr <$> t));
     if n =? 0
     then Ok (fixed, log' ++ [RemovedFilm title])
     else
       film ← Py.store (JObj kvs) "showtimes" (JArr (JStr <$> t));
       film ← Py.store film "showtime_count" (JInt (Z.of_nat n));
       Ok (fixed ++ [film], log')) =
    Ok (fixed ++
        option_list
          match t with
          | [] => None
          | _ :: _ =>
              Some (JObj (Py.setitem "showtime_count" (JInt (Z.of_nat (length t)))
                            (Py.setitem "showtimes" (JArr (JStr <$> t)) kvs)))
          end,
        log' ++ match t with [] => [RemovedFilm title] | _ => [] end)) as Hstore.
  { intros t log'. cbn [Py.len]. rewrite bind_Ok, length_fmap.
    destruct t as [|x t]; simpl; [by rewrite app_nil_r|].
    by rewrite app_nil_r. }
  destruct (cap <? length d) eqn:E.
  - cbn [Py.slice_to]. rewrite !bind_Ok, <- fmap_take.
    cbn beta iota. rewrite Hstore. by rewrite <- app_assoc.
  - rewrite bind_Ok. cbn beta iota. rewrite Hstore.
    apply Nat.ltb_ge in E. by rewrite take_ge.
Qed.

Lemma fix_film_closed name film fixed log :
  film_ok film = true →
  fix_film (JStr name) film (fixed, log) =
  Ok (fixed ++ option_list (fixed_film (cap_of name) film),
      log ++ film_fixes (cap_of name) film).
Proof.
  intros (kvs & -> & Ht & _ & Hs)%film_ok_inv.
  unfold fix_film. rewrite Ht, Hs, !bind_Ok.
  rewrite set_strs, bind_Ok, sorted_strs, bind_Ok.
  unfold fixed_film, film_fixes, fixed_showtimes, deduplicated.
  set (ss := showtimes_of (JObj kvs)). set (u := sort_str (distinct ss)).
  set (title := JStr (title_str (JObj kvs))).
  cbn [Py.len]. rewrite bind_Ok, !length_fmap.
  unfold max_showtimes. cbn [Py.contains]. rewrite !bind_Ok. fold (cap_of name).
  destruct (length u <? length ss) eqn:E1.
  - etrans; [apply limit_and_store|]. by rewrite <- app_assoc.
  - etrans; [apply limit_and_store|]. done.
Qed.

Lemma fix_films_closed name films fixed log :
  forallb film_ok films = true →
  for_each (fix_film (JStr name)) films (fixed, log) =
  Ok (fixed ++ omap (fixed_film (cap_of name)) films,
      log ++ concat (film_fixes (cap_of name) <$> films)).
Proof.
  revert fixed log. induction films as [|film films IH]; intros fixed log Hok.
  - simpl. by rewrite !app_nil_r.
  - apply andb_true_iff in Hok as [Hfilm Hok].
    cbn [for_each]. rewrite fix_film_closed, bind_Ok, IH by done.
    rewrite fmap_cons. cbn [concat omap list_omap]. rewrite <- !app_assoc.
    by destruct (fixed_film (cap_of name) film).
Qed.

Lemma fix_cinema_closed cinema cinemas log :
  cinema_ok cinema = true →
  fix_cinema cinema (cinemas, log) =
  Ok (cinemas ++ [fixed_cinema cinema], log ++ cinema_fixes cinema).
Proof.
  intros (kvs & -> & Hn & Hf & Hok)%cinema_ok_inv.
  unfold fix_cinema. rewrite Hn, Hf, !bind_Ok.
  cbn [Py.iter]. rewrite bind_Ok, fix_films_closed, bind_Ok by done.
  cbn [Py.store Py.len]. rewrite !bind_Ok.
  unfold cinema_fixes, fixed_cinema, fixed_films. by rewrite <- app_assoc.
Qed.

Lemma fix_cinemas_closed cs cinemas log :
  forallb cinema_ok cs = true →
  for_each fix_cinema cs (cinemas, log) =
  Ok (cinemas ++ (fixed_cinema <$> cs), log ++ concat (cinema_fixes <$> cs)).
Proof.
  revert cinemas log. induction cs as [|c cs IH]; intros cinemas log Hok.
  - simpl. by rewrite !app_nil_r.
  - apply andb_true_iff in Hok as [Hc Hok].
    cbn [for_each]. rewrite fix_cinema_closed, bind_Ok, IH by done.
    rewrite !fmap_cons. cbn [concat]. by rewrite <- !app_assoc.
Qed.

Lemma fix_data_closed data :
  dataset_ok data = true →
  fix_data data =
  Ok (write_back data (fixed_cinema <$> cinemas_of data),
      concat (cinema_fixes <$> cinemas_of data)).
Proof.
  intros (kvs & -> & Hc & Hok)%dataset_ok_inv.
  unfold fix_data. rewrite Hc, bind_Ok. cbn [Py.iter].
  rewrite bind_Ok, fix_cinemas_closed by done. by rewrite bind_Ok.
Qed.

(** ** What fix 1 and fix 2 leave *)

Lemma deduplicated_NoDup ss : NoDup (deduplicated ss).
Proof.
  unfold deduplicated. rewrite length_sort_str.
  destruct (length (distinct ss) <? length ss) eqn:E.
  - apply NoDup_sort_str, NoDup_distinct.
  - apply Nat.ltb_ge in E. pose proof (length_distinct ss).
    apply distinct_length_NoDup. lia.
Qed.

Lemma deduplicated_id ss : NoDup ss → deduplicated ss = ss.
Proof.
  intros H. unfold deduplicated.
  rewrite length_sort_str, distinct_id by done. by rewrite Nat.ltb_irrefl.
Qed.

Lemma deduplicated_dup ss :
  ¬ NoDup ss → deduplicated ss = sort_str (distinct ss).
Proof.
  intros H. unfold deduplicated. rewrite length_sort_str.
  destruct (length (distinct ss) <? length ss) eqn:E; [done|].
  apply Nat.ltb_ge in E. pose proof (length_distinct ss).
  destruct H. apply distinct_length_NoDup. lia.
Qed.

Lemma deduplicated_ascending ss : ¬ NoDup ss → ascending (deduplicated ss).
Proof.
  intros H. unfold deduplicated. rewrite length_sort_str.
  destruct (length (distinct ss) <? length ss) eqn:E.
  - apply ascending_sort_str, NoDup_distinct.
  - apply Nat.ltb_ge in E. pose proof (length_distinct ss).
    destruct H. apply distinct_length_NoDup. lia.
Qed.

Lemma deduplicated_nil ss : deduplicated ss = [] ↔ ss = [].
Proof.
  split; [|by intros ->].
  unfold deduplicated. rewrite length_sort_str.
  destruct (length (distinct ss) <? length ss) eqn:E; [|done].
  intros Hnil. apply (f_equal length) in Hnil.
  rewrite length_sort_str in Hnil. destruct ss as [|x ss]; [done|].
  assert (x ∈ distinct (x :: ss)) as Hx by (apply elem_of_distinct; by left).
  destruct (distinct (x :: ss)); [by apply elem_of_nil in Hx|done].
Qed.

Lemma fixed_showtimes_NoDup cap ss : NoDup (fixed_showtimes cap ss).
Proof.
  eapply sublist_NoDup; [apply deduplicated_NoDup|apply sublist_take].
Qed.

Lemma fixed_showtimes_length cap ss : length (fixed_showtimes cap ss) ≤ cap.
Proof. unfold fixed_showtimes. rewrite length_take. lia. Qed.

Lemma fixed_showtimes_ascending cap ss :
  ¬ NoDup ss → ascending (fixed_showtimes cap ss).
Proof. intros H. by apply ascending_take, deduplicated_ascending. Qed.

Lemma fixed_showtimes_NoDup_take cap ss :
  NoDup ss → fixed_showtimes cap ss = take cap ss.
Proof. intros H. unfold fixed_showtimes. by rewrite deduplicated_id. Qed.

Lemma fixed_showtimes_id cap ss :
  NoDup ss → length ss ≤ cap → fixed_showtimes cap ss = ss.
Proof. intros H ?. rewrite fixed_showtimes_NoDup_take by done. by apply take_ge. Qed.

Lemma fixed_showtimes_nil cap ss :
  0 < cap → fixed_showtimes cap ss = [] ↔ ss = [].
Proof.
  intros Hcap. rewrite <- (deduplicated_nil ss). unfold fixed_showtimes.
  destruct (deduplicated ss), cap; simpl; try done; lia.
Qed.

Lemma cap_of_pos name : 0 < cap_of name.
Proof. unfold cap_of. destruct (Py.is_substring _ _); lia. Qed.

(** ** The fixed film and the fixed cinema *)

Lemma omap_str_of (ss : list string) : omap str_of (JStr <$> ss) = ss.
Proof. induction ss as [|s ss IH]; [done|]. simpl. f_equal. exact IH. Qed.

Lemma fixed_film_Some cap film film' :
  fixed_film cap film = Some film' →
  ∃ ss, ss = fixed_showtimes cap (showtimes_of film)
    ∧ ss ≠ []
    ∧ field "showtimes" film' = Some (JArr (JStr <$> ss))
    ∧ field "showtime_count" film' = Some (JInt (Z.of_nat (length ss)))
    ∧ showtimes_of film' = ss
    ∧ untouched film film'.
Proof.
  intros H. exists (fixed_showtimes cap (showtimes_of film)).
  split; [done|]. unfold fixed_film in H.
  destruct (fixed_showtimes cap (showtimes_of film)) as [|s ss'] eqn:Ess; [done|].
  destruct film as [| | | | |kvs]; try done.
  injection H as <-. unfold showtimes_of, untouched. simpl.
  rewrite find_setitem_eq, find_setitem_ne, find_setitem_eq by done. simpl.
  split_and!; try done.
  - f_equal. apply omap_str_of.
  - intros k H1 H2. by rewrite !find_setitem_ne.
Qed.

Lemma fixed_film_None cap film :
  0 < cap → film_ok film = true →
  fixed_film cap film = None ↔ showtimes_of film = [].
Proof.
  intros Hcap (kvs & -> & _)%film_ok_inv. unfold fixed_film.
  rewrite <- (fixed_showtimes_nil cap) by done.
  by destruct (fixed_showtimes cap _).
Qed.

Lemma is_str_strs (ss : list string) : forallb is_str (JStr <$> ss) = true.
Proof. by induction ss. Qed.

Lemma fixed_film_ok cap film film' :
  film_ok film = true → fixed_film cap film = Some film' → film_ok film' = true.
Proof.
  intros Hok H.
  destruct (fixed_film_Some _ _ _ H) as (ss & _ & _ & Hs & _ & _ & Hu).
  destruct film as [| | | | |kvs]; try done.
  destruct film' as [| | | | |kvs']; try done.
  unfold untouched in Hu. simpl in Hok, Hs, Hu |- *.
  apply andb_true_iff in Hok as [[Ht Hd]%andb_true_iff _].
  unfold opt_field in *. rewrite !Hu by done. rewrite Ht, Hd, Hs. simpl.
  apply is_str_strs.
Qed.

Lemma fixed_film_fixed cap film film' :
  fixed_film cap film = Some film' →
  fixed_film cap film' = Some film' ∧ film_fixes cap film' = [].
Proof.
  intros H. pose proof (fixed_film_Some _ _ _ H) as (? & -> & Hne & Hs & Hc & Hss & _).
  assert (fixed_showtimes cap (showtimes_of film') = showtimes_of film') as Hid.
  { rewrite Hss. apply fixed_showtimes_id;
      [apply fixed_showtimes_NoDup|apply fixed_showtimes_length]. }
  split.
  - unfold fixed_film. rewrite Hid, Hss.
    destruct (fixed_showtimes cap (showtimes_of film)) as [|s ss] eqn:E; [done|].
    unfold fixed_film in H. rewrite E in H.
    destruct film as [| | | | |kvs], film' as [| | | | |kvs']; try done.
    simpl in Hs, Hc. do 2 f_equal.
    rewrite (setitem_id "showtimes") by done. by apply setitem_id.
  - unfold film_fixes. rewrite Hid.
    assert (NoDup (showtimes_of film')) as Hnd
      by (rewrite Hss; apply fixed_showtimes_NoDup).
    assert (length (showtimes_of film') ≤ cap) as Hlen
      by (rewrite Hss; apply fixed_showtimes_length).
    rewrite deduplicated_id, length_sort_str, distinct_id, Nat.ltb_irrefl by done.
    destruct (cap <? _) eqn:E; [apply Nat.ltb_lt in E; lia|].
    rewrite Hss. by destruct (fixed_showtimes cap (showtimes_of film)).
Qed.

Lemma fixed_films_ok cap films :
  forallb film_ok films = true →
  forallb film_ok (omap (fixed_film cap) films) = true.
Proof.
  induction films as [|f films IH]; [done|].
  intros [Hf Hok]%andb_true_iff. cbn [omap list_omap].
  destruct (fixed_film cap f) as [f'|] eqn:E; [|by apply IH].
  simpl. rewrite (fixed_film_ok _ _ _ Hf E). by apply IH.
Qed.

Lemma fixed_films_fixed cap films :
  omap (fixed_film cap) (omap (fixed_film cap) films) = omap (fixed_film cap) films
  ∧ concat (film_fixes cap <$> omap (fixed_film cap) films) = [].
Proof.
  induction films as [|f films [IH1 IH2]]; [done|].
  cbn [omap list_omap].
  destruct (fixed_film cap f) as [f'|] eqn:E; [|done].
  destruct (fixed_film_fixed _ _ _ E) as [E1 E2].
  rewrite fmap_cons. cbn [omap list_omap concat].
  rewrite E1, E2. split; [f_equal; exact IH1|exact IH2].
Qed.

Lemma fixed_films_kept cap films :
  0 < cap → forallb film_ok films = true →
  Forall2 (fun f f' => fixed_film cap f = Some f')
    (filter (fun f => showtimes_of f ≠ []) films) (omap (fixed_film cap) films).
Proof.
  intros Hcap. induction films as [|f films IH]; [constructor|].
  intros [Hf Hok]%andb_true_iff. rewrite filter_cons. cbn [omap list_omap].
  pose proof (fixed_film_None cap f Hcap Hf) as Hnone.
  destruct (fixed_film cap f) as [f'|] eqn:E; case_decide as Hss.
  - constructor; [done|by apply IH].
  - by apply Hnone in Hss.
  - exfalso. by apply Hss, Hnone.
  - by apply IH.
Qed.

Lemma fixed_cinema_inv cinema :
  cinema_ok cinema = true →
  name_str (fixed_cinema cinema) = name_str cinema
  ∧ films_of (fixed_cinema cinema) = fixed_films cinema
  ∧ (∀ k, k ≠ "films" → field k (fixed_cinema cinema) = field k cinema)
  ∧ cinema_ok (fixed_cinema cinema) = true.
Proof.
  intros Hok. pose proof Hok as (kvs & -> & _ & _ & Hfilms)%cinema_ok_inv.
  unfold name_str, films_of. cbn [fixed_cinema field].
  rewrite find_setitem_eq, find_setitem_ne by done.
  split_and!; try done.
  - intros k Hk. by rewrite find_setitem_ne.
  - simpl in Hok |- *. apply andb_true_iff in Hok as [Hn _].
    unfold opt_field in *. rewrite find_setitem_eq, find_setitem_ne by done.
    rewrite Hn. simpl. by apply fixed_films_ok.
Qed.

Lemma fixed_cinema_fixed cinema :
  cinema_ok cinema = true →
  fixed_cinema (fixed_cinema cinema) = fixed_cinema cinema
  ∧ cinema_fixes (fixed_cinema cinema) =
    [CinemaSummary (JStr (name_str cinema)) (length (fixed_films cinema))
       (length (fixed_films cinema))].
Proof.
  intros Hok. destruct (fixed_cinema_inv _ Hok) as (Hn & Hf & _ & _).
  assert (fixed_films (fixed_cinema cinema) = fixed_films cinema) as Hff.
  { unfold fixed_films at 1. rewrite Hn, Hf. apply fixed_films_fixed. }
  split.
  - destruct cinema as [| | | | |kvs]; try done.
    cbn [fixed_cinema]. fold (fixed_cinema (JObj kvs)). rewrite Hff.
    cbn [fixed_cinema]. f_equal. apply setitem_id, find_setitem_eq.
  - unfold cinema_fixes. rewrite Hff, Hn, Hf.
    unfold fixed_films at 1. by rewrite (proj2 (fixed_films_fixed _ _)).
Qed.

(** ** The dataset after the loop *)

Lemma write_back_inv data cinemas :
  dataset_ok data = true →
  length cinemas = length (cinemas_of data) →
  forallb cinema_ok cinemas = true →
  cinemas_of (write_back data cinemas) = cinemas
  ∧ (∀ k, k ≠ "cinemas" → field k (write_back data cinemas) = field k data)
  ∧ dataset_ok (write_back data cinemas) = true
  ∧ write_back (write_back data cinemas) cinemas = write_back data cinemas.
Proof.
  destruct data as [| | | | |kvs]; try done.
  unfold cinemas_of, write_back, dataset_ok, opt_field. cbn [field].
  destruct (Py.find "cinemas" kvs) as [v|] eqn:E.
  - destruct v as [| | | |l|]; try done. intros _ _ Hok. cbn [field].
    rewrite find_setitem_eq. simpl. split_and!; try done.
    + intros k Hk. by rewrite find_setitem_ne.
    + f_equal. apply setitem_id, find_setitem_eq.
  - simpl. intros _ Hlen _. rewrite E. simpl.
    by destruct cinemas.
Qed.

Lemma forallb_elem {A : Type} (p : A -> bool) (l : list A) x :
  forallb p l = true → x ∈ l → p x = true.
Proof.
  intros H Hx. rewrite forallb_forall in H. by apply H, list_elem_of_In.
Qed.

Lemma Forall2_fmap_diag {A B : Type} (R : A -> B -> Prop) (g : A -> B) l :
  (∀ x, x ∈ l → R x (g x)) → Forall2 R l (g <$> l).
Proof.
  intros H. apply Forall2_fmap_r, Forall_Forall2_diag, Forall_forall. exact H.
Qed.

Lemma fixed_cinemas_ok cs :
  forallb cinema_ok cs = true → forallb cinema_ok (fixed_cinema <$> cs) = true.
Proof.
  induction cs as [|c cs IH]; [done|].
  intros [Hc Hok]%andb_true_iff. simpl.
  rewrite (proj2 (proj2 (proj2 (fixed_cinema_inv c Hc)))). by apply IH.
Qed.

Lemma fixed_cinemas_fixed cs :
  forallb cinema_ok cs = true →
  fixed_cinema <$> (fixed_cinema <$> cs) = fixed_cinema <$> cs
  ∧ forallb is_summary (concat (cinema_fixes <$> (fixed_cinema <$> cs))) = true.
Proof.
  induction cs as [|c cs IH]; [done|].
  intros [Hc Hok]%andb_true_iff. destruct (IH Hok) as [IH1 IH2].
  destruct (fixed_cinema_fixed c Hc) as [E1 E2].
  rewrite !fmap_cons, E1, E2, IH1. by split.
Qed.

Lemma fix_data_inv data data' log :
  dataset_ok data = true → fix_data data = Ok (data', log) →
  data' = write_back data (fixed_cinema <$> cinemas_of data)
  ∧ log = concat (cinema_fixes <$> cinemas_of data)
  ∧ cinemas_of data' = fixed_cinema <$> cinemas_of data
  ∧ (∀ k, k ≠ "cinemas" → field k data' = field k data)
  ∧ dataset_ok data' = true
  ∧ write_back data' (fixed_cinema <$> cinemas_of data) = data'.
Proof.
  intros Hok H. rewrite fix_data_closed in H by done. injection H as <- <-.
  pose proof Hok as (_ & _ & _ & Hcs)%dataset_ok_inv.
  destruct (write_back_inv data (fixed_cinema <$> cinemas_of data))
    as (H1 & H2 & H3 & H4);
    [done|by rewrite length_fmap|by apply fixed_cinemas_ok|done].
Qed.

(** * The fixer: claims *)

(** C1 (as amended). The cap that the truncation step of the fixer uses
    is 3 when the cinema name contains "Regular" and 5 otherwise: for a
    film of the documented shape the stored showtimes are the first [cap]
    entries of what the deduplication left. *)
Theorem cap_is_3_for_regular_5_otherwise name film fixed log :
  film_ok film = true →
  ∃ cap,
    max_showtimes (JStr name) = Ok cap
    ∧ (contains_regular name → cap = 3)
    ∧ (¬ contains_regular name → cap = 5)
    ∧ fix_film (JStr name) film (fixed, log) =
      Ok (fixed ++ option_list (fixed_film cap film), log ++ film_fixes cap film)
    ∧ (∀ film', fixed_film cap film = Some film' →
       showtimes_of film' = take cap (deduplicated (showtimes_of film))).
Proof.
  intros Hok. exists (cap_of name). split_and!.
  - done.
  - apply cap_of_regular.
  - apply cap_of_other.
  - by apply fix_film_closed.
  - intros film' H. by destruct (fixed_film_Some _ _ _ H) as (? & -> & _ & _ & _ & ? & _).
Qed.

Lemma cap_is_3_for_regular_5_otherwise_witness :
  film_ok (film_of "Alien" "Tue" ["10:00"; "12:00"; "14:00"; "16:00"; "18:00"; "20:00"]) = true
  ∧ ∃ cap,
      max_showtimes (JStr "IMAX Regular Screen 1") = Ok cap
      ∧ (contains_regular "IMAX Regular Screen 1" → cap = 3)
      ∧ (¬ contains_regular "IMAX Regular Screen 1" → cap = 5)
      ∧ fix_film (JStr "IMAX Regular Screen 1")
          (film_of "Alien" "Tue" ["10:00"; "12:00"; "14:00"; "16:00"; "18:00"; "20:00"])
          ([], []) =
        Ok ([] ++ option_list (fixed_film cap
                (film_of "Alien" "Tue" ["10:00"; "12:00"; "14:00"; "16:00"; "18:00"; "20:00"])),
            [] ++ film_fixes cap
                (film_of "Alien" "Tue" ["10:00"; "12:00"; "14:00"; "16:00"; "18:00"; "20:00"]))
      ∧ (∀ film', fixed_film cap
            (film_of "Alien" "Tue" ["10:00"; "12:00"; "14:00"; "16:00"; "18:00"; "20:00"]) = Some film' →
         showtimes_of film' =
         take cap (deduplicated
            (showtimes_of (film_of "Alien" "Tue" ["10:00"; "12:00"; "14:00"; "16:00"; "18:00"; "20:00"])))).
Proof.
  split; [reflexivity|].
  apply (cap_is_3_for_regular_5_otherwise "IMAX Regular Screen 1"). reflexivity.
Defined.

(** C1 as stated fails: a name that contains "Regular" gets the cap 3,
    not 5, and a name that does not gets 5, not 3. *)
Lemma cap_5_for_regular_fails :
  ¬ (∀ name,
       (contains_regular name → max_showtimes (JStr name) = Ok 5)
       ∧ (¬ contains_regular name → max_showtimes (JStr name) = Ok 3)).
Proof.
  intros H. destruct (H "Regular Cinema") as [H5 _].
  assert (contains_regular "Regular Cinema") as Hc by (by exists "", " Cinema").
  specialize (H5 Hc). vm_compute in H5. discriminate.
Qed.

(** C2 (as amended). After the fixer the films of a cinema are, in
    order, the input films that had a showtime, and each of them, next to
    the input film it comes from, has a showtime list without duplicates,
    of length at most the cap of its cinema (3 with "Regular" in the name,
    5 otherwise), and a [showtime_count] equal to that length. When the
    input film had a repeated showtime the list is strictly ascending: it
    is the first [cap] of the sorted distinct values. When it had none the
    list is the first [cap] showtimes in input order. *)
Theorem fixed_showtimes_distinct_capped_counted data data' log :
  dataset_ok data = true →
  fix_data data = Ok (data', log) →
  Forall2
    (fun c c' =>
       name_str c' = name_str c ∧
       Forall2
         (fun f f' =>
            untouched f f' ∧
            ∃ ss,
              field "showtimes" f' = Some (JArr (JStr <$> ss))
              ∧ NoDup ss
              ∧ length ss ≤ cap_of (name_str c')
              ∧ field "showtime_count" f' = Some (JInt (Z.of_nat (length ss)))
              ∧ (¬ NoDup (showtimes_of f) →
                 ascending ss
                 ∧ ss = take (cap_of (name_str c'))
                          (sort_str (distinct (showtimes_of f))))
              ∧ (NoDup (showtimes_of f) →
                 ss = take (cap_of (name_str c')) (showtimes_of f)))
         (filter (fun f => showtimes_of f ≠ []) (films_of c)) (films_of c'))
    (cinemas_of data) (cinemas_of data').
Proof.
  intros Hok H. destruct (fix_data_inv _ _ _ Hok H) as (_ & _ & -> & _).
  pose proof Hok as (_ & _ & _ & Hcs)%dataset_ok_inv.
  apply Forall2_fmap_diag. intros c Hc.
  pose proof (forallb_elem _ _ _ Hcs Hc) as Hcok.
  destruct (fixed_cinema_inv c Hcok) as (-> & -> & _ & _).
  pose proof Hcok as (_ & _ & _ & _ & Hfilms)%cinema_ok_inv.
  split; [done|].
  eapply Forall2_impl; [apply fixed_films_kept; [apply cap_of_pos|done]|].
  intros f f' Hff.
  destruct (fixed_film_Some _ _ _ Hff) as (ss & -> & _ & Hs & Hn & _ & Hu).
  split; [done|].
  exists (fixed_showtimes (cap_of (name_str c)) (showtimes_of f)).
  split_and!; try done.
  - apply fixed_showtimes_NoDup.
  - apply fixed_showtimes_length.
  - intros Hdup. split; [by apply fixed_showtimes_ascending|].
    unfold fixed_showtimes. by rewrite deduplicated_dup.
  - apply fixed_showtimes_NoDup_take.
Qed.

Lemma fixed_showtimes_distinct_capped_counted_witness :
  dataset_ok sample_dataset = true
  ∧ ∃ data' log,
      fix_data sample_dataset = Ok (data', log)
      ∧ Forall2
          (fun c c' =>
             name_str c' = name_str c ∧
             Forall2
               (fun f f' =>
                  untouched f f' ∧
                  ∃ ss,
                    field "showtimes" f' = Some (JArr (JStr <$> ss))
                    ∧ NoDup ss
                    ∧ length ss ≤ cap_of (name_str c')
                    ∧ field "showtime_count" f' = Some (JInt (Z.of_nat (length ss)))
                    ∧ (¬ NoDup (showtimes_of f) →
                       ascending ss
                       ∧ ss = take (cap_of (name_str c'))
                                (sort_str (distinct (showtimes_of f))))
                    ∧ (NoDup (showtimes_of f) →
                       ss = take (cap_of (name_str c')) (showtimes_of f)))
               (filter (fun f => showtimes_of f ≠ []) (films_of c)) (films_of c'))
          (cinemas_of sample_dataset) (cinemas_of data').
Proof.
  split; [reflexivity|]. eexists _, _. split; [vm_compute; reflexivity|].
  eapply (fixed_showtimes_distinct_capped_counted sample_dataset);
    [reflexivity|vm_compute; reflexivity].
Defined.

(** C2 as stated fails: two distinct showtimes that come in out of order
    are kept as they are. *)
Lemma retained_showtimes_not_ascending :
  ∃ data' log c f,
    fix_data unsorted_dataset = Ok (data', log)
    ∧ c ∈ cinemas_of data'
    ∧ f ∈ films_of c
    ∧ showtimes_of f = ["21:00"; "19:00"]
    ∧ ¬ ascending (showtimes_of f).
Proof.
  eexists _, _, _, _. split; [vm_compute; reflexivity|].
  split; [apply list_elem_of_here|]. split; [apply list_elem_of_here|].
  split; [reflexivity|].
  intros Hasc. inversion Hasc as [|? ? _ Hhd]; subst.
  inversion Hhd as [|? ? Hlt]; subst. vm_compute in Hlt. discriminate.
Qed.

(** C3. On a dataset of the documented shape the fixer is idempotent: a
    second run on the output of a first run returns that output unchanged
    and logs nothing but the per-cinema summary lines. *)
Theorem fixer_idempotent data data' log :
  dataset_ok data = true →
  fix_data data = Ok (data', log) →
  ∃ log',
    fix_data data' = Ok (data', log')
    ∧ forallb is_summary log' = true
    ∧ length log' = length (cinemas_of data).
Proof.
  intros Hok H.
  destruct (fix_data_inv _ _ _ Hok H) as (_ & _ & Hcs' & _ & Hok' & Hwb).
  pose proof Hok as (_ & _ & _ & Hcs)%dataset_ok_inv.
  destruct (fixed_cinemas_fixed _ Hcs) as [Hfix Hlog].
  rewrite (fix_data_closed data' Hok'), Hcs', Hfix, Hwb.
  eexists. split_and!; [done..|].
  clear -Hcs. induction (cinemas_of data) as [|c cs IH]; [done|].
  apply andb_true_iff in Hcs as [Hc Hcs].
  rewrite !fmap_cons. cbn [concat]. rewrite (proj2 (fixed_cinema_fixed c Hc)).
  simpl. f_equal. by apply IH.
Qed.

Lemma fixer_idempotent_witness :
  dataset_ok sample_dataset = true
  ∧ ∃ data' log,
      fix_data sample_dataset = Ok (data', log)
      ∧ ∃ log',
          fix_data data' = Ok (data', log')
          ∧ forallb is_summary log' = true
          ∧ length log' = length (cinemas_of sample_dataset).
Proof.
  split; [reflexivity|]. eexists _, _. split; [vm_compute; reflexivity|].
  eapply (fixer_idempotent sample_dataset); [reflexivity|vm_compute; reflexivity].
Defined.



(** C10. The fixer neither removes nor reorders cinemas: the output has
    one cinema per input cinema, in input order, equal to it on every
    field but [films]. Within a cinema the output films are the input
    films that have at least one showtime, in input order; the films
    without showtimes are the only ones dropped and none is added. *)
Theorem fixer_keeps_cinemas_and_film_order data data' log :
  dataset_ok data = true →
  fix_data data = Ok (data', log) →
  Forall2
    (fun c c' =>
       (∀ k, k ≠ "films" → field k c' = field k c)
       ∧ ∃ kept,
           kept = filter (fun f => showtimes_of f ≠ []) (films_of c)
           ∧ sublist kept (films_of c)
           ∧ Forall2 untouched kept (films_of c'))
    (cinemas_of data) (cinemas_of data').
Proof.
  intros Hok H. destruct (fix_data_inv _ _ _ Hok H) as (_ & _ & -> & _).
  pose proof Hok as (_ & _ & _ & Hcs)%dataset_ok_inv.
  apply Forall2_fmap_diag. intros c Hc.
  pose proof (forallb_elem _ _ _ Hcs Hc) as Hcok.
  destruct (fixed_cinema_inv c Hcok) as (_ & -> & Hfields & _).
  pose proof Hcok as (_ & _ & _ & _ & Hfilms)%cinema_ok_inv.
  split; [done|]. eexists. split; [done|]. split; [apply sublist_filter|].
  eapply Forall2_impl; [apply fixed_films_kept; [apply cap_of_pos|done]|].
  intros f f' Hff.
  by destruct (fixed_film_Some _ _ _ Hff) as (? & _ & _ & _ & _ & _ & ?).
Qed.

Lemma fixer_keeps_cinemas_and_film_order_witness :
  dataset_ok sample_dataset = true
  ∧ ∃ data' log,
      fix_data sample_dataset = Ok (data', log)
      ∧ Forall2
          (fun c c' =>
             (∀ k, k ≠ "films" → field k c' = field k c)
             ∧ ∃ kept,
                 kept = filter (fun f => showtimes_of f ≠ []) (films_of c)
                 ∧ sublist kept (films_of c)
                 ∧ Forall2 untouched kept (films_of c'))
          (cinemas_of sample_dataset) (cinemas_of data').
Proof.
  split; [reflexivity|]. eexists _, _. split; [vm_compute; reflexivity|].
  eapply (fixer_keeps_cinemas_and_film_order sample_dataset);
    [reflexivity|vm_compute; reflexivity].
Defined.

(** * The validator *)

(** ** Dicts filled in one pass *)

Section Table.
Context {X V : Type} (key : X -> string) (g : list X -> V).

Lemma dfind_fmap (h : string -> V) ks k :
  Py.dfind (JStr k) ((fun k' => (JStr k', h k')) <$> ks) =
  if bool_decide (k ∈ ks) then Some (h k) else None.
Proof.
  induction ks as [|k' ks IH]; [done|].
  rewrite fmap_cons. cbn [Py.dfind].
  change (Py.eqb (JStr k) (JStr k')) with (String.eqb k k').
  destruct (String.eqb_spec k k') as [->|Hne].
  - rewrite bool_decide_eq_true_2; [done|by left].
  - rewrite IH. apply (f_equal (fun b : bool => if b then _ else _)).
    apply bool_decide_ext. rewrite elem_of_cons. naive_solver.
Qed.

Lemma dset_fmap_in (h : string -> V) ks k v :
  NoDup ks → k ∈ ks →
  Py.dset (JStr k) v ((fun k' => (JStr k', h k')) <$> ks) =
  (fun k' => (JStr k', if decide (k' = k) then v else h k')) <$> ks.
Proof.
  induction ks as [|k' ks IH]; intros Hnd Hin; [by apply elem_of_nil in Hin|].
  apply NoDup_cons in Hnd as [Hk' Hnd].
  rewrite !fmap_cons. cbn [Py.dset].
  change (Py.eqb (JStr k) (JStr k')) with (String.eqb k k').
  destruct (String.eqb_spec k k') as [->|Hne].
  - rewrite decide_True by done. f_equal.
    apply list_fmap_ext. intros i k0 Hk0. apply list_elem_of_lookup_2 in Hk0.
    rewrite decide_False; [done|]. by intros ->.
  - rewrite decide_False by done. f_equal. apply IH; [done|].
    apply elem_of_cons in Hin as [?|?]; done.
Qed.

Lemma dset_fmap_notin (h : string -> V) ks k v :
  k ∉ ks →
  Py.dset (JStr k) v ((fun k' => (JStr k', h k')) <$> ks) =
  ((fun k' => (JStr k', h k')) <$> ks) ++ [(JStr k, v)].
Proof.
  induction ks as [|k' ks IH]; intros Hin; [done|].
  apply not_elem_of_cons in Hin as [Hne Hin].
  rewrite !fmap_cons. cbn [Py.dset].
  change (Py.eqb (JStr k) (JStr k')) with (String.eqb k k').
  destruct (String.eqb_spec k k') as [->|_]; [done|].
  simpl. f_equal. by apply IH.
Qed.

Lemma filter_key_nil k xs :
  filter (fun y => key y = k) xs = [] ↔ k ∉ key <$> xs.
Proof.
  induction xs as [|x xs IH]; [by split; [intros _; apply not_elem_of_nil|]|].
  rewrite filter_cons, fmap_cons, not_elem_of_cons. case_decide as Hk.
  - split; [done|]. intros [? _]. done.
  - rewrite IH. naive_solver.
Qed.

Lemma table_nil : table key g [] = [].
Proof. done. Qed.

(** [d[key(x)] = f(d.get(key(x)))] extends the table by [x] whenever [f]
    computes the value for the entries seen so far plus [x]. *)
Lemma update_table (f : option V -> V) xs x :
  (∀ ys, f (match ys with [] => None | _ => Some (g ys) end) = g (ys ++ [x])) →
  Py.update (JStr (key x)) f (table key g xs) = Ok (table key g (xs ++ [x])).
Proof.
  intros Hf. unfold Py.update. cbn [Py.hashable]. f_equal.
  unfold table. rewrite dfind_fmap, fmap_app.
  change (key <$> [x]) with [key x]. rewrite distinct_snoc.
  unfold add_distinct.
  pose proof (filter_key_nil (key x) xs) as Hnil.
  rewrite <- (elem_of_distinct (key x)) in Hnil.
  case_bool_decide as Hin.
  - assert (filter (fun y => key y = key x) xs ≠ []) as Hne by naive_solver.
    specialize (Hf (filter (fun y => key y = key x) xs)).
    destruct (filter (fun y => key y = key x) xs) as [|y ys] eqn:E; [done|].
    rewrite Hf, dset_fmap_in by (done || apply NoDup_distinct).
    apply list_fmap_ext. intros i k Hk.
    rewrite filter_app, filter_cons, filter_nil.
    destruct (decide (k = key x)) as [->|Hk'].
    + rewrite decide_True by done. by rewrite E.
    + rewrite decide_False by done. by rewrite app_nil_r.
  - assert (filter (fun y => key y = key x) xs = []) as E by naive_solver.
    specialize (Hf []). simpl in Hf. rewrite Hf, dset_fmap_notin by done.
    rewrite fmap_app. f_equal.
    + apply list_fmap_ext. intros i k Hk. apply list_elem_of_lookup_2 in Hk.
      rewrite filter_app, filter_cons, filter_nil.
      rewrite decide_False; [by rewrite app_nil_r|]. by intros <-.
    + simpl. rewrite filter_app, filter_cons, filter_nil, E.
      by rewrite decide_True.
Qed.

Lemma table_keys xs : (fun e => e.1) <$> table key g xs = JStr <$> distinct (key <$> xs).
Proof. unfold table. rewrite <- list_fmap_compose. done. Qed.

Lemma filter_key_unique xs x :
  NoDup (key <$> xs) → x ∈ xs → filter (fun y => key y = key x) xs = [x].
Proof.
  induction xs as [|y xs IH]; intros Hnd Hx; [by apply elem_of_nil in Hx|].
  rewrite fmap_cons in Hnd. apply NoDup_cons in Hnd as [Hy Hnd].
  rewrite filter_cons. apply elem_of_cons in Hx as [->|Hx].
  - rewrite decide_True by done. f_equal. by apply filter_key_nil.
  - rewrite decide_False; [by apply IH|].
    intros Heq. apply Hy. rewrite Heq. by apply list_elem_of_fmap_2.
Qed.

  (** Without repeated keys every entry has a row of its own, in order. *)
Lemma table_NoDup xs :
  NoDup (key <$> xs) →
  table key g xs = (fun x => (JStr (key x), g [x])) <$> xs.
Proof.
  intros Hnd. unfold table. rewrite distinct_id, <- list_fmap_compose by done.
  apply list_fmap_ext. intros i x Hx. apply list_elem_of_lookup_2 in Hx.
  simpl. by rewrite filter_key_unique.
Qed.
End Table.

(** ** The validator in closed form *)

Lemma length_distinct_eqb (ss : list string) :
  (length ss =? length (distinct ss)) = bool_decide (NoDup ss).
Proof.
  case_bool_decide as H.
  - apply Nat.eqb_eq. by rewrite distinct_id.
  - apply Nat.eqb_neq. intros Hlen. by apply H, distinct_length_NoDup.
Qed.

Lemma check_film_closed name day film issues warnings :
  film_ok film = true →
  check_film name day film (issues, warnings) =
  Ok (issues ++ film_issues name day film, warnings ++ film_warnings name day film).
Proof.
  intros (kvs & -> & Ht & _ & Hs)%film_ok_inv.
  unfold check_film. rewrite Hs, Ht, !bind_Ok. cbn [Py.len].
  rewrite bind_Ok, set_strs, bind_Ok, !length_fmap, length_distinct_eqb.
  unfold film_issues, film_warnings.
  destruct (4 <? _), (bool_decide _), (_ =? 0); simpl;
    by rewrite ?app_nil_r, <- ?app_assoc.
Qed.

Lemma check_films_closed name day films issues warnings :
  forallb film_ok films = true →
  for_each (check_film name day) films (issues, warnings) =
  Ok (issues ++ concat (film_issues name day <$> films),
      warnings ++ concat (film_warnings name day <$> films)).
Proof.
  revert issues warnings.
  induction films as [|film films IH]; intros issues warnings Hok.
  - simpl. by rewrite !app_nil_r.
  - apply andb_true_iff in Hok as [Hfilm Hok].
    cbn [for_each]. rewrite check_film_closed, bind_Ok, IH by done.
    rewrite !fmap_cons. cbn [concat]. by rewrite <- !app_assoc.
Qed.

Lemma count_titles_closed films :
  forallb film_ok films = true →
  for_each count_title films [] = Ok (table title_str length films).
Proof.
  induction films as [|film films IH] using rev_ind; [done|].
  rewrite forallb_app. intros [Hok [Hfilm _]%andb_true_iff]%andb_true_iff.
  rewrite for_each_snoc, IH, bind_Ok by done.
  destruct (film_ok_inv _ Hfilm) as (kvs & -> & Ht & _).
  unfold count_title. rewrite Ht, bind_Ok.
  apply update_table. intros [|y ys]; [done|].
  simpl. rewrite length_app. simpl. done.
Qed.

Lemma group_films_closed films :
  forallb film_ok films = true →
  for_each group_film films [] = Ok (groups films).
Proof.
  induction films as [|film films IH] using rev_ind; [done|].
  rewrite forallb_app. intros [Hok [Hfilm _]%andb_true_iff]%andb_true_iff.
  rewrite for_each_snoc, IH, bind_Ok by done.
  destruct (film_ok_inv _ Hfilm) as (kvs & -> & _ & Hd & _).
  unfold group_film. rewrite Hd, bind_Ok.
  apply (update_table day_str id). by intros [|y ys].
Qed.

Lemma check_day_closed name day day_films issues warnings :
  forallb film_ok day_films = true →
  check_day name (day, day_films) (issues, warnings) =
  Ok (issues ++ group_issues name (day, day_films),
      warnings ++ group_warnings name (day, day_films)).
Proof.
  intros Hok. unfold check_day.
  rewrite check_films_closed, bind_Ok by done.
  unfold group_issues, group_warnings, count_issue, count_warning,
    duplicate_issue, duplicate_titles. cbn [fst snd].
  destruct (30 <? length day_films); [|destruct (20 <? length day_films)];
    cbn beta iota zeta; rewrite count_titles_closed, bind_Ok by done;
    destruct (List.filter _ _); by rewrite ?app_nil_r, <- ?app_assoc.
Qed.

Lemma check_days_closed name gs issues warnings :
  Forall (fun g => forallb film_ok g.2 = true) gs →
  for_each (check_day name) gs (issues, warnings) =
  Ok (issues ++ concat (group_issues name <$> gs),
      warnings ++ concat (group_warnings name <$> gs)).
Proof.
  intros Hgs. revert issues warnings.
  induction Hgs as [|[day day_films] gs Hg _ IH]; intros issues warnings.
  - simpl. by rewrite !app_nil_r.
  - cbn [for_each]. rewrite check_day_closed, bind_Ok, IH by done.
    rewrite !fmap_cons. cbn [concat]. by rewrite <- !app_assoc.
Qed.

Lemma forallb_filter_ok {A : Type} (p : A -> bool) (P : A -> Prop)
    `{!∀ x, Decision (P x)} (l : list A) :
  forallb p l = true → forallb p (filter P l) = true.
Proof.
  induction l as [|x l IH]; [done|].
  intros [Hx Hl]%andb_true_iff. rewrite filter_cons.
  case_decide; simpl; rewrite ?Hx; by apply IH.
Qed.

Lemma groups_ok films :
  forallb film_ok films = true →
  Forall (fun g => forallb film_ok g.2 = true) (groups films).
Proof.
  intros Hok. unfold groups, table. apply Forall_fmap, Forall_forall.
  intros day _. simpl. by apply forallb_filter_ok.
Qed.

Lemma last_stat_snoc cs c : last_stat (cs ++ [c]) = stat_of c.
Proof. unfold last_stat. by rewrite last_snoc. Qed.

Lemma check_cinema_closed cinema seen issues warnings :
  cinema_ok cinema = true →
  check_cinema cinema (issues, warnings, table name_str last_stat seen) =
  Ok (issues ++ cinema_issues cinema, warnings ++ cinema_warnings cinema,
      table name_str last_stat (seen ++ [cinema])).
Proof.
  intros (kvs & -> & Hn & Hf & Hok)%cinema_ok_inv.
  unfold check_cinema. rewrite Hn, Hf, !bind_Ok.
  cbn [Py.iter Py.len]. rewrite bind_Ok, group_films_closed, !bind_Ok by done.
  rewrite (update_table name_str last_stat _ seen (JObj kvs)), bind_Ok
    by (intros ys; by rewrite last_stat_snoc).
  rewrite check_days_closed, bind_Ok by by apply groups_ok.
  done.
Qed.

Lemma check_cinemas_closed cs seen issues warnings :
  forallb cinema_ok cs = true →
  for_each check_cinema cs (issues, warnings, table name_str last_stat seen) =
  Ok (issues ++ concat (cinema_issues <$> cs),
      warnings ++ concat (cinema_warnings <$> cs),
      table name_str last_stat (seen ++ cs)).
Proof.
  revert seen issues warnings.
  induction cs as [|c cs IH]; intros seen issues warnings Hok.
  - simpl. by rewrite !app_nil_r.
  - apply andb_true_iff in Hok as [Hc Hok].
    cbn [for_each]. rewrite check_cinema_closed, bind_Ok, IH by done.
    rewrite !fmap_cons. cbn [concat]. by rewrite <- !app_assoc.
Qed.

Lemma validate_closed data :
  dataset_ok data = true → validate data = Ok (spec_report data).
Proof.
  intros (kvs & -> & Hc & Hok)%dataset_ok_inv.
  unfold validate. rewrite Hc, bind_Ok. cbn [Py.iter]. rewrite bind_Ok.
  rewrite (check_cinemas_closed _ [] [] []), bind_Ok by done.
  unfold spec_report, spec_issues, spec_warnings, global_issue, total_of, stats_of.
  cbn [app]. by destruct (500 <? _); rewrite ?app_nil_r.
Qed.

(** * The validator: claims *)

Lemma film_issues_not_count name day films :
  List.filter is_count_issue (concat (film_issues name day <$> films)) = [].
Proof.
  induction films as [|film films IH]; [done|].
  rewrite fmap_cons. cbn [concat]. rewrite List.filter_app, IH, app_nil_r.
  unfold film_issues. by destruct (4 <? _), (bool_decide _).
Qed.

Lemma film_warnings_not_count name day films :
  List.filter is_count_warning (concat (film_warnings name day <$> films)) = [].
Proof.
  induction films as [|film films IH]; [done|].
  rewrite fmap_cons. cbn [concat]. rewrite List.filter_app, IH, app_nil_r.
  unfold film_warnings. by destruct (_ =? 0).
Qed.

Lemma duplicate_issue_not_count name day films :
  List.filter is_count_issue (duplicate_issue name day films) = [].
Proof. unfold duplicate_issue. by destruct (duplicate_titles films). Qed.

(** C5. For every (cinema, day) group the two film-count thresholds are
    mutually exclusive: with more than 30 films the group adds exactly one
    hard issue for the film-count rule and no warning for it, and with
    more than 20 but at most 30 films it adds exactly one warning and no
    hard issue for that rule. *)
Theorem film_count_thresholds_exclusive name day day_films issues warnings :
  forallb film_ok day_films = true →
  ∃ new_issues new_warnings,
    check_day name (day, day_films) (issues, warnings) =
    Ok (issues ++ new_issues, warnings ++ new_warnings)
    ∧ (30 < length day_films →
       List.filter is_count_issue new_issues =
         [TooManyFilms name day (length day_films)]
       ∧ List.filter is_count_warning new_warnings = [])
    ∧ (20 < length day_films ≤ 30 →
       List.filter is_count_warning new_warnings =
         [HighFilmCount name day (length day_films)]
       ∧ List.filter is_count_issue new_issues = []).
Proof.
  intros Hok. eexists _, _. split; [by apply check_day_closed|].
  unfold group_issues, group_warnings, count_issue, count_warning. cbn [fst snd].
  rewrite !List.filter_app, film_issues_not_count, film_warnings_not_count,
    duplicate_issue_not_count, app_nil_r.
  split.
  - intros ->%Nat.ltb_lt. done.
  - intros [->%Nat.ltb_lt ->%Nat.ltb_ge]. done.
Qed.

Lemma film_count_thresholds_exclusive_witness :
  forallb film_ok (replicate 32 (film_of "Alien" "Mon" ["19:00"])) = true
  ∧ ∃ new_issues new_warnings,
      check_day (JStr "Odeon")
        (JStr "Mon", replicate 32 (film_of "Alien" "Mon" ["19:00"])) ([], []) =
      Ok ([] ++ new_issues, [] ++ new_warnings)
      ∧ (30 < length (replicate 32 (film_of "Alien" "Mon" ["19:00"])) →
         List.filter is_count_issue new_issues =
           [TooManyFilms (JStr "Odeon") (JStr "Mon")
              (length (replicate 32 (film_of "Alien" "Mon" ["19:00"])))]
         ∧ List.filter is_count_warning new_warnings = [])
      ∧ (20 < length (replicate 32 (film_of "Alien" "Mon" ["19:00"])) ≤ 30 →
         List.filter is_count_warning new_warnings =
           [HighFilmCount (JStr "Odeon") (JStr "Mon")
              (length (replicate 32 (film_of "Alien" "Mon" ["19:00"])))]
         ∧ List.filter is_count_issue new_issues = []).
Proof.
  split; [reflexivity|].
  apply (film_count_thresholds_exclusive (JStr "Odeon") (JStr "Mon")). reflexivity.
Defined.

(** C8. The issues of the report come in the order cinema (input order),
    day (order of first appearance), rule (rules 1 and 2 film by film,
    then the film-count issue, then the duplicate-title issue), with the
    global issue last; the warnings follow the same order (rule 3 film by
    film, then the film-count warning). *)
Theorem report_messages_in_rule_order data :
  dataset_ok data = true →
  ∃ r,
    validate data = Ok r
    ∧ issues r =
      concat ((fun c =>
                 concat ((fun g =>
                            concat (film_issues (JStr (name_str c)) g.1 <$> g.2) ++
                            count_issue (JStr (name_str c)) g.1 (length g.2) ++
                            duplicate_issue (JStr (name_str c)) g.1 g.2)
                         <$> groups (films_of c)))
              <$> cinemas_of data) ++
      global_issue (summary_total_films r)
    ∧ warnings r =
      concat ((fun c =>
                 concat ((fun g =>
                            concat (film_warnings (JStr (name_str c)) g.1 <$> g.2) ++
                            count_warning (JStr (name_str c)) g.1 (length g.2))
                         <$> groups (films_of c)))
              <$> cinemas_of data)
    ∧ ∀ c, (fun g => g.1) <$> groups (films_of c) =
           JStr <$> distinct (day_str <$> films_of c).
Proof.
  intros Hok. exists (spec_report data). split; [by apply validate_closed|].
  split_and!; [done..|]. intros c. apply table_keys.
Qed.

Lemma report_messages_in_rule_order_witness :
  dataset_ok sample_dataset = true
  ∧ ∃ r,
      validate sample_dataset = Ok r
      ∧ issues r =
        concat ((fun c =>
                   concat ((fun g =>
                              concat (film_issues (JStr (name_str c)) g.1 <$> g.2) ++
                              count_issue (JStr (name_str c)) g.1 (length g.2) ++
                              duplicate_issue (JStr (name_str c)) g.1 g.2)
                           <$> groups (films_of c)))
                <$> cinemas_of sample_dataset) ++
        global_issue (summary_total_films r)
      ∧ warnings r =
        concat ((fun c =>
                   concat ((fun g =>
                              concat (film_warnings (JStr (name_str c)) g.1 <$> g.2) ++
                              count_warning (JStr (name_str c)) g.1 (length g.2))
                           <$> groups (films_of c)))
                <$> cinemas_of sample_dataset)
      ∧ ∀ c, (fun g => g.1) <$> groups (films_of c) =
             JStr <$> distinct (day_str <$> films_of c).
Proof.
  split; [reflexivity|]. apply (report_messages_in_rule_order sample_dataset).
  reflexivity.
Defined.

Lemma cinema_issues_not_global cs :
  List.filter is_global (concat (cinema_issues <$> cs)) = [].
Proof.
  induction cs as [|c cs IH]; [done|].
  rewrite fmap_cons. cbn [concat]. rewrite List.filter_app, IH, app_nil_r.
  unfold cinema_issues. induction (groups (films_of c)) as [|g gs IHg]; [done|].
  rewrite fmap_cons. cbn [concat]. rewrite List.filter_app, IHg, app_nil_r.
  unfold group_issues, count_issue, duplicate_issue.
  rewrite !List.filter_app.
  assert (List.filter is_global
            (concat (film_issues (JStr (name_str c)) g.1 <$> g.2)) = []) as ->.
  { induction g.2 as [|f fs IHf]; [done|].
    rewrite fmap_cons. cbn [concat]. rewrite List.filter_app, IHf, app_nil_r.
    unfold film_issues. by destruct (4 <? _), (bool_decide _). }
  by destruct (30 <? _), (duplicate_titles _).
Qed.

Lemma stats_total_NoDup cs :
  NoDup (name_str <$> cs) →
  sum_list ((fun s => total_films s.2) <$> table name_str last_stat cs) =
  sum_list ((fun c => length (films_of c)) <$> cs).
Proof.
  intros Hnd. by rewrite table_NoDup, <- list_fmap_compose by done.
Qed.

(** What the global check computes. The validator emits exactly one
    global hard issue when the total taken from the per-name statistics
    exceeds 500 and none otherwise. That total has one term per distinct
    cinema name, the film count of the last record of that name; it is the
    sum of the films of all records only when no two records share a
    name. *)
Theorem global_issue_iff_stats_total_over_500 data :
  dataset_ok data = true →
  ∃ r,
    validate data = Ok r
    ∧ List.filter is_global (issues r) =
      (if 500 <? summary_total_films r
       then [TotalFilms (summary_total_films r)] else [])
    ∧ summary_total_films r =
      sum_list ((fun name =>
                   length (films_of (default JNull
                     (last (filter (fun c => name_str c = name) (cinemas_of data))))))
                <$> distinct (name_str <$> cinemas_of data))
    ∧ (NoDup (name_str <$> cinemas_of data) →
       summary_total_films r =
       sum_list ((fun c => length (films_of c)) <$> cinemas_of data)).
Proof.
  intros Hok. exists (spec_report data). split; [by apply validate_closed|].
  cbn [issues summary_total_films spec_report]. split_and!.
  - unfold spec_issues, global_issue.
    rewrite List.filter_app, cinema_issues_not_global.
    by destruct (500 <? _).
  - unfold total_of, stats_of, table. by rewrite <- list_fmap_compose.
  - apply stats_total_NoDup.
Qed.

Lemma global_issue_iff_stats_total_over_500_witness :
  dataset_ok sample_dataset = true
  ∧ ∃ r,
      validate sample_dataset = Ok r
      ∧ List.filter is_global (issues r) =
        (if 500 <? summary_total_films r
         then [TotalFilms (summary_total_films r)] else [])
      ∧ summary_total_films r =
        sum_list ((fun name =>
                     length (films_of (default JNull
                       (last (filter (fun c => name_str c = name)
                                (cinemas_of sample_dataset))))))
                  <$> distinct (name_str <$> cinemas_of sample_dataset))
      ∧ (NoDup (name_str <$> cinemas_of sample_dataset) →
         summary_total_films r =
         sum_list ((fun c => length (films_of c)) <$> cinemas_of sample_dataset)).
Proof.
  split; [reflexivity|]. apply (global_issue_iff_stats_total_over_500 sample_dataset).
  reflexivity.
Defined.

(** C4. The global check misses records that share a name: line 79 sums
    the statistics, which line 34 keys by cinema name, and line 81 reports
    the sum as the total of all cinemas. Two records of the name "Odeon"
    with 251 films each hold 502 films; the validator counts 251 and emits
    no global issue. Two records without a name, both read as "Unknown",
    fare the same. *)
Lemma records_sharing_a_name_counted_once :
  (∃ r,
     validate twin_dataset = Ok r
     ∧ sum_list ((fun c => length (films_of c)) <$> cinemas_of twin_dataset) = 502
     ∧ summary_total_films r = 251
     ∧ List.filter is_global (issues r) = [])
  ∧ (∃ r,
       validate nameless_dataset = Ok r
       ∧ sum_list ((fun c => length (films_of c)) <$> cinemas_of nameless_dataset) = 502
       ∧ summary_total_films r = 251
       ∧ List.filter is_global (issues r) = []).
Proof.
  split; (eexists; split; [vm_compute; reflexivity|]); by vm_compute.
Qed.

(** ** Missing fields and their defaults *)

Lemma find_with_default_eq k d kvs :
  Py.find k (with_default k d kvs) = Some (default d (Py.find k kvs)).
Proof.
  unfold with_default. destruct (Py.find k kvs) eqn:E; [done|].
  by apply find_app_None.
Qed.

Lemma find_with_default_ne k k' d kvs :
  k ≠ k' → Py.find k' (with_default k d kvs) = Py.find k' kvs.
Proof.
  intros Hne. unfold with_default. destruct (Py.find k kvs); [done|].
  by apply find_app_ne.
Qed.

Lemma str_default d (o : option json) :
  default d (Some (default (JStr d) o) ≫= str_of) = default d (o ≫= str_of).
Proof. by destruct o. Qed.

Lemma film_defaults_inv film :
  title_str (film_defaults film) = title_str film
  ∧ day_str (film_defaults film) = day_str film
  ∧ showtimes_of (film_defaults film) = showtimes_of film
  ∧ (film_ok film = true → film_ok (film_defaults film) = true).
Proof.
  destruct film as [| | | | |kvs]; try done.
  unfold title_str, day_str, showtimes_of. cbn [film_defaults field film_ok].
  unfold opt_field.
  rewrite !find_with_default_eq,
    !(find_with_default_ne "showtimes"), !find_with_default_eq,
    !(find_with_default_ne "title"), !find_with_default_eq,
    !(find_with_default_ne "day") by done.
  rewrite !str_default. split_and!; try done.
  by destruct (Py.find "title" kvs), (Py.find "day" kvs),
    (Py.find "showtimes" kvs).
Qed.

Lemma filter_fmap_key {X : Type} (key key' : X -> string) (h : X -> X) k
    (xs : list X) :
  (∀ x, key (h x) = key' x) →
  filter (fun y => key y = k) (h <$> xs) = h <$> filter (fun x => key' x = k) xs.
Proof.
  intros Hkey. induction xs as [|x xs IH]; [done|].
  rewrite fmap_cons, !filter_cons, Hkey, IH. by case_decide.
Qed.

Lemma table_fmap {X V : Type} (key key' : X -> string) (g : list X -> V)
    (h : X -> X) (xs : list X) :
  (∀ x, key (h x) = key' x) →
  table key g (h <$> xs) = table key' (fun ys => g (h <$> ys)) xs.
Proof.
  intros Hkey. unfold table.
  rewrite <- list_fmap_compose, (list_fmap_ext (key ∘ h) key') by (intros; apply Hkey).
  apply list_fmap_ext. intros i k _. by rewrite (filter_fmap_key key key').
Qed.

Lemma table_ext {X V : Type} (key : X -> string) (g g' : list X -> V) xs :
  (∀ ys, g ys = g' ys) → table key g xs = table key g' xs.
Proof.
  intros Hg. unfold table. apply list_fmap_ext. intros i k _. by rewrite Hg.
Qed.

Lemma groups_defaults (films : list json) :
  groups (film_defaults <$> films) =
  (fun g : json * list json => (g.1, film_defaults <$> g.2)) <$> groups films.
Proof.
  unfold groups. rewrite (table_fmap day_str day_str)
    by (intros; apply film_defaults_inv).
  unfold table. rewrite <- list_fmap_compose. done.
Qed.

Lemma group_messages_defaults name day (films : list json) :
  group_issues name (day, film_defaults <$> films) = group_issues name (day, films)
  ∧ group_warnings name (day, film_defaults <$> films) =
    group_warnings name (day, films).
Proof.
  unfold group_issues, group_warnings, duplicate_issue, duplicate_titles.
  cbn [fst snd]. rewrite length_fmap, <- !list_fmap_compose.
  rewrite (table_fmap title_str title_str) by (intros; apply film_defaults_inv).
  rewrite (table_ext _ (fun ys => length (film_defaults <$> ys)) length)
    by (intros; apply length_fmap).
  split; f_equal; f_equal; apply list_fmap_ext; intros i f _; simpl.
  - unfold film_issues.
    by destruct (film_defaults_inv f) as (-> & _ & -> & _).
  - unfold film_warnings.
    by destruct (film_defaults_inv f) as (-> & _ & -> & _).
Qed.

Lemma forallb_fmap_ok {A : Type} (p q : A -> bool) (h : A -> A) (l : list A) :
  (∀ x, p x = true → q (h x) = true) →
  forallb p l = true → forallb q (h <$> l) = true.
Proof.
  intros Hpq. induction l as [|x l IH]; [done|].
  intros [Hx Hl]%andb_true_iff. rewrite fmap_cons. cbn [forallb].
  rewrite (Hpq x Hx). by apply IH.
Qed.

Lemma cinema_defaults_inv cinema :
  name_str (cinema_defaults cinema) = name_str cinema
  ∧ films_of (cinema_defaults cinema) = film_defaults <$> films_of cinema
  ∧ (cinema_ok cinema = true → cinema_ok (cinema_defaults cinema) = true).
Proof.
  destruct cinema as [| | | | |kvs]; try done.
  unfold name_str, films_of. cbn [cinema_defaults field cinema_ok].
  unfold opt_field.
  rewrite !find_setitem_eq, !find_setitem_ne, !find_with_default_eq by done.
  rewrite str_default. split_and!; try done.
  intros [Hn Hf]%andb_true_iff. apply andb_true_iff. split.
  - by destruct (Py.find "name" kvs).
  - unfold films_of. cbn [field is_arr_of].
    destruct (Py.find "films" kvs) as [[| | | |l|]|]; try done.
    apply (forallb_fmap_ok film_ok film_ok film_defaults l); [|exact Hf].
    intros f. apply film_defaults_inv.
Qed.

Lemma cinema_messages_defaults cinema :
  cinema_issues (cinema_defaults cinema) = cinema_issues cinema
  ∧ cinema_warnings (cinema_defaults cinema) = cinema_warnings cinema
  ∧ stat_of (cinema_defaults cinema) = stat_of cinema.
Proof.
  destruct (cinema_defaults_inv cinema) as (Hn & Hf & _).
  unfold cinema_issues, cinema_warnings, stat_of.
  rewrite Hn, Hf, groups_defaults, length_fmap, <- !list_fmap_compose.
  split_and!.
  - f_equal. apply list_fmap_ext. intros i [day fs] _. simpl.
    apply group_messages_defaults.
  - f_equal. apply list_fmap_ext. intros i [day fs] _. simpl.
    apply group_messages_defaults.
  - rewrite !length_fmap. f_equal.
    apply list_fmap_ext. intros i [day fs] _. simpl. by rewrite length_fmap.
Qed.

Lemma dataset_defaults_inv data :
  dataset_ok data = true →
  cinemas_of (dataset_defaults data) = cinema_defaults <$> cinemas_of data
  ∧ dataset_ok (dataset_defaults data) = true.
Proof.
  destruct data as [| | | | |kvs]; try done.
  cbn [dataset_defaults dataset_ok]. unfold cinemas_of, opt_field. cbn [field].
  rewrite !find_setitem_eq. intros Hok. split; [done|].
  cbn [is_arr_of].
  destruct (Py.find "cinemas" kvs) as [[| | | |l|]|]; try done.
  apply (forallb_fmap_ok cinema_ok cinema_ok cinema_defaults l); [|exact Hok].
  intros c. apply cinema_defaults_inv.
Qed.

Lemma spec_report_defaults data :
  dataset_ok data = true → spec_report (dataset_defaults data) = spec_report data.
Proof.
  intros Hok. destruct (dataset_defaults_inv data Hok) as [Hcs _].
  assert (stats_of (dataset_defaults data) = stats_of data) as Hstats.
  { unfold stats_of. rewrite Hcs.
    rewrite (table_fmap name_str name_str) by (intros; apply cinema_defaults_inv).
    apply table_ext. intros ys. unfold last_stat. rewrite fmap_last.
    destruct (last ys); [apply cinema_messages_defaults|done]. }
  assert (spec_issues (dataset_defaults data) = spec_issues data) as Hissues.
  { unfold spec_issues, total_of. rewrite Hstats, Hcs, <- list_fmap_compose.
    do 2 f_equal. apply list_fmap_ext. intros i c _. apply cinema_messages_defaults. }
  assert (spec_warnings (dataset_defaults data) = spec_warnings data) as Hwarnings.
  { unfold spec_warnings. rewrite Hcs, <- list_fmap_compose.
    f_equal. apply list_fmap_ext. intros i c _. apply cinema_messages_defaults. }
  unfold spec_report, total_of. by rewrite Hissues, Hwarnings, Hstats.
Qed.

(** C7 (as amended). The validator does not raise on a document of the
    documented shape, whatever fields are missing: its report is the one
    of the same document with the defaults written in ("Unknown" for a
    name or a title, "unknown" for a day, the empty list for cinemas, films
    and showtimes). A source that cannot be read or parsed yields the
    failure result with the error and no report. *)
Theorem validator_defaults_missing_fields files path :
  (∀ e, load files path = Raise e →
        validate_cinema_data files path = Ok (CannotRead e))
  ∧ (∀ data, load files path = Ok data → dataset_ok data = true →
       ∃ r, validate_cinema_data files path = Ok (Report r)
            ∧ validate (dataset_defaults data) = Ok r
            ∧ (field "cinemas" data = None → issues r = [] ∧ warnings r = [])).
Proof.
  unfold validate_cinema_data. split.
  - by intros e ->.
  - intros data -> Hok. exists (spec_report data).
    rewrite validate_closed, bind_Ok by done. split; [done|]. split.
    + rewrite validate_closed by by apply dataset_defaults_inv.
      by rewrite spec_report_defaults.
    + intros Hnone. cbn [issues warnings spec_report].
      unfold spec_issues, spec_warnings, total_of, stats_of, cinemas_of.
      by rewrite Hnone.
Qed.

Lemma validator_defaults_missing_fields_witness :
  (load (∅ : gmap string file) data_file = Raise FileNotFoundError
   ∧ validate_cinema_data ∅ data_file = Ok (CannotRead FileNotFoundError))
  ∧ load {[data_file := Json sample_dataset]} data_file = Ok sample_dataset
  ∧ dataset_ok sample_dataset = true
  ∧ ∃ r, validate_cinema_data {[data_file := Json sample_dataset]} data_file =
         Ok (Report r)
         ∧ validate (dataset_defaults sample_dataset) = Ok r
         ∧ (field "cinemas" sample_dataset = None → issues r = [] ∧ warnings r = []).
Proof.
  split; [split; [reflexivity|]|split; [reflexivity|split; [reflexivity|]]].
  - apply (proj1 (validator_defaults_missing_fields ∅ data_file)). reflexivity.
  - apply (proj2 (validator_defaults_missing_fields
                    {[data_file := Json sample_dataset]} data_file));
      reflexivity.
Defined.

(** C7 as stated fails: a document that parses and whose [cinemas] is
    [null] makes the validator raise. *)
Lemma validator_raises_on_null_cinemas :
  load {[data_file := Json null_cinemas]} data_file = Ok null_cinemas
  ∧ validate_cinema_data {[data_file := Json null_cinemas]} data_file =
    Raise TypeError.
Proof. split; reflexivity. Qed.

(** * Reading the source *)

Lemma auto_fix_data_without_backup files path e :
  load files path = Raise e →
  auto_fix_data files path false =
  Ok {| returned := false; files_after := files; printed := [] |}.
Proof. unfold auto_fix_data. rewrite bind_Ok. by intros ->. Qed.

Lemma auto_fix_data_not_json files path backup :
  files !! path = Some NotJson →
  ∃ files',
    auto_fix_data files path backup =
    Ok {| returned := false; files_after := files'; printed := [] |}.
Proof.
  intros Hfile. unfold auto_fix_data, copy. rewrite Hfile.
  destruct backup; rewrite bind_Ok; unfold load.
  - destruct (decide (path +:+ ".backup" = path)) as [Heq|Hne].
    + rewrite Heq, lookup_insert_eq. by eexists.
    + rewrite lookup_insert_ne, Hfile by done. by eexists.
  - rewrite Hfile. by eexists.
Qed.

(** C6. With the backup enabled the copy comes before the guarded read:
    on a source that does not exist [auto_fix_data] raises out of
    [shutil.copy] and returns nothing, where without the backup it returns
    false. *)
Theorem backup_of_missing_source_raises files path :
  files !! path = None →
  auto_fix_data files path true = Raise FileNotFoundError
  ∧ auto_fix_data files path false =
    Ok {| returned := false; files_after := files; printed := [] |}.
Proof.
  intros Hfile. split.
  - unfold auto_fix_data, copy. by rewrite Hfile.
  - apply (auto_fix_data_without_backup _ _ FileNotFoundError).
    unfold load. by rewrite Hfile.
Qed.

Lemma backup_of_missing_source_raises_witness :
  (∅ : gmap string file) !! data_file = None
  ∧ auto_fix_data ∅ data_file true = Raise FileNotFoundError
  ∧ auto_fix_data ∅ data_file false =
    Ok {| returned := false; files_after := ∅; printed := [] |}.
Proof.
  split; [reflexivity|]. apply (backup_of_missing_source_raises ∅ data_file).
  reflexivity.
Defined.

(** * Further properties of the fixer *)


Lemma deduplicated_length ss : length (deduplicated ss) = length (distinct ss).
Proof.
  unfold deduplicated. rewrite length_sort_str.
  destruct (length (distinct ss) <? length ss) eqn:E.
  - apply length_sort_str.
  - apply Nat.ltb_ge in E. pose proof (length_distinct ss). lia.
Qed.






Lemma film_fixes_accounting cap film :
  film_ok film = true →
  List.filter is_summary (film_fixes cap film) = []
  ∧ length (List.filter is_removed (film_fixes cap film)) +
    length (option_list (fixed_film cap film)) = 1.
Proof.
  intros (kvs & -> & _)%film_ok_inv. unfold film_fixes, fixed_film.
  rewrite !List.filter_app.
  destruct (_ <? _), (_ <? _), (fixed_showtimes cap _); by simpl.
Qed.

Lemma films_fixes_accounting cap films :
  forallb film_ok films = true →
  List.filter is_summary (concat (film_fixes cap <$> films)) = []
  ∧ length (List.filter is_removed (concat (film_fixes cap <$> films))) +
    length (omap (fixed_film cap) films) = length films.
Proof.
  induction films as [|f films IH]; [done|].
  intros [Hf Hok]%andb_true_iff. destruct (IH Hok) as [IH1 IH2].
  destruct (film_fixes_accounting cap f Hf) as [H1 H2].
  rewrite fmap_cons. cbn [concat omap list_omap length].
  rewrite !List.filter_app, H1, IH1, length_app. split; [done|].
  destruct (fixed_film cap f); simpl in *; lia.
Qed.

Lemma cinema_fixes_accounting cinema :
  cinema_ok cinema = true →
  List.filter is_summary (cinema_fixes cinema) =
    [CinemaSummary (JStr (name_str cinema)) (length (films_of cinema))
       (length (films_of (fixed_cinema cinema)))]
  ∧ length (List.filter is_removed (cinema_fixes cinema)) +
    length (films_of (fixed_cinema cinema)) = length (films_of cinema).
Proof.
  intros Hok. destruct (fixed_cinema_inv _ Hok) as (_ & -> & _ & _).
  pose proof Hok as (_ & _ & _ & _ & Hfilms)%cinema_ok_inv.
  destruct (films_fixes_accounting (cap_of (name_str cinema)) _ Hfilms) as [H1 H2].
  unfold cinema_fixes. rewrite !List.filter_app, H1, length_app.
  split; [done|]. simpl. unfold fixed_films. lia.
Qed.

(** X2. The log accounts for every film: it holds one summary line per
    cinema, in cinema order, with the number of films the cinema came in
    with and the number it leaves with, and over the dataset the films
    that came in are the films that leave plus the "removed" entries. *)
Theorem fixer_log_accounts_for_films data data' log :
  dataset_ok data = true →
  fix_data data = Ok (data', log) →
  List.filter is_summary log =
    zip_with (fun c c' =>
                CinemaSummary (JStr (name_str c)) (length (films_of c))
                  (length (films_of c')))
      (cinemas_of data) (cinemas_of data')
  ∧ length (List.filter is_removed log) +
    sum_list ((fun c' => length (films_of c')) <$> cinemas_of data') =
    sum_list ((fun c => length (films_of c)) <$> cinemas_of data).
Proof.
  intros Hok H. destruct (fix_data_inv _ _ _ Hok H) as (_ & -> & -> & _).
  pose proof Hok as (_ & _ & _ & Hcs)%dataset_ok_inv. clear H Hok.
  induction (cinemas_of data) as [|c cs IH]; [done|].
  apply andb_true_iff in Hcs as [Hc Hcs]. destruct (IH Hcs) as [IH1 IH2].
  destruct (cinema_fixes_accounting c Hc) as [H1 H2].
  rewrite !fmap_cons. cbn [concat zip_with].
  rewrite !List.filter_app, H1, IH1, length_app. split; [done|].
  change (sum_list (?x :: ?l)) with (x + sum_list l). lia.
Qed.

Lemma fixer_log_accounts_for_films_witness :
  dataset_ok sample_dataset = true
  ∧ ∃ data' log,
      fix_data sample_dataset = Ok (data', log)
      ∧ List.filter is_summary log =
          zip_with (fun c c' =>
                      CinemaSummary (JStr (name_str c)) (length (films_of c))
                        (length (films_of c')))
            (cinemas_of sample_dataset) (cinemas_of data')
      ∧ length (List.filter is_removed log) +
        sum_list ((fun c' => length (films_of c')) <$> cinemas_of data') =
        sum_list ((fun c => length (films_of c)) <$> cinemas_of sample_dataset).
Proof.
  split; [reflexivity|]. eexists _, _. split; [vm_compute; reflexivity|].
  eapply (fixer_log_accounts_for_films sample_dataset);
    [reflexivity|vm_compute; reflexivity].
Defined.

Lemma setitem_absent k v kvs :
  Py.find k kvs = None → Py.setitem k v kvs = kvs ++ [(k, v)].
Proof.
  induction kvs as [|[k' v'] kvs IH]; simpl; [done|].
  destruct (String.eqb_spec k k'); [done|]. intros H. by rewrite IH.
Qed.

(** X3. A cinema record without a [films] key is not an error for the
    fixer, whatever its other fields hold: it gets an empty [films] list
    as its last key and the log gets its summary line with 0 and 0. *)
Theorem cinema_without_films_gets_empty_list kvs cinemas log :
  Py.find "films" kvs = None →
  fix_cinema (JObj kvs) (cinemas, log) =
  Ok (cinemas ++ [JObj (kvs ++ [("films", JArr [])])],
      log ++ [CinemaSummary (default (JStr "Unknown") (Py.find "name" kvs)) 0 0]).
Proof.
  intros Hnone. unfold fix_cinema. cbn [Py.get]. rewrite Hnone, !bind_Ok.
  cbn [default from_option id Py.iter]. rewrite bind_Ok. cbn [for_each].
  rewrite bind_Ok. cbn [Py.store]. rewrite bind_Ok. cbn [Py.len].
  rewrite bind_Ok. by rewrite setitem_absent.
Qed.

Lemma cinema_without_films_gets_empty_list_witness :
  Py.find "films" [("name", JInt 7); ("city", JStr "Ely")] = None
  ∧ fix_cinema (JObj [("name", JInt 7); ("city", JStr "Ely")]) ([], []) =
    Ok ([] ++ [JObj ([("name", JInt 7); ("city", JStr "Ely")] ++ [("films", JArr [])])],
        [] ++ [CinemaSummary
                 (default (JStr "Unknown")
                    (Py.find "name" [("name", JInt 7); ("city", JStr "Ely")])) 0 0]).
Proof.
  split; [reflexivity|].
  apply (cinema_without_films_gets_empty_list
           [("name", JInt 7); ("city", JStr "Ely")] [] []).
  reflexivity.
Defined.

(** ** Validating what the fixer wrote *)

Lemma Forall_concat_2 {A : Type} (P : A -> Prop) (ls : list (list A)) :
  Forall (Forall P) ls → Forall P (concat ls).
Proof.
  induction 1 as [|l ls Hl _ IH]; [constructor|].
  simpl. apply Forall_app. by split.
Qed.

Lemma fixed_films_showtimes cinema film' :
  film' ∈ fixed_films cinema →
  NoDup (showtimes_of film')
  ∧ 0 < length (showtimes_of film') ≤ cap_of (name_str cinema).
Proof.
  unfold fixed_films. intros (f & _ & Hff)%list_elem_of_omap.
  destruct (fixed_film_Some _ _ _ Hff) as (ss & -> & Hne & _ & _ & -> & _).
  split_and!.
  - apply fixed_showtimes_NoDup.
  - destruct (fixed_showtimes _ _); [done|simpl; lia].
  - apply fixed_showtimes_length.
Qed.

Lemma fixed_film_messages name day film' :
  NoDup (showtimes_of film') →
  0 < length (showtimes_of film') ≤ cap_of name →
  Forall left_by_fixer (film_issues (JStr name) day film')
  ∧ film_warnings (JStr name) day film' = [].
Proof.
  intros Hnd [Hpos Hcap]. unfold film_issues, film_warnings.
  rewrite bool_decide_eq_true_2 by done.
  destruct (length (showtimes_of film') =? 0) eqn:E0;
    [apply Nat.eqb_eq in E0; lia|]. split; [|done].
  destruct (4 <? length (showtimes_of film')) eqn:E4; [|constructor].
  apply Nat.ltb_lt in E4. repeat constructor.
  - unfold cap_of in Hcap. destruct (Py.is_substring _ _); lia.
  - exists name. split; [done|]. intros Hreg.
    rewrite (cap_of_regular _ Hreg) in Hcap. lia.
Qed.

Lemma fixed_cinema_messages cinema :
  cinema_ok cinema = true →
  Forall left_by_fixer (cinema_issues (fixed_cinema cinema))
  ∧ Forall has_showtimes (cinema_warnings (fixed_cinema cinema)).
Proof.
  intros Hok. destruct (fixed_cinema_inv _ Hok) as (Hn & Hf & _ & _).
  unfold cinema_issues, cinema_warnings. rewrite Hn, Hf.
  unfold groups, table. rewrite <- !list_fmap_compose.
  split; apply Forall_concat_2, Forall_fmap, Forall_forall; intros day _;
    unfold compose, group_issues, group_warnings; cbn [fst snd].
  - rewrite !Forall_app. split_and!.
    + apply Forall_concat_2, Forall_fmap, Forall_forall.
      intros f' [_ Hf']%list_elem_of_filter.
      destruct (fixed_films_showtimes _ _ Hf') as [Hnd Hlen].
      by apply fixed_film_messages.
    + unfold count_issue. destruct (30 <? _); by repeat constructor.
    + unfold duplicate_issue. destruct (duplicate_titles _); by repeat constructor.
  - rewrite !Forall_app. split.
    + apply Forall_concat_2, Forall_fmap, Forall_forall.
      intros f' [_ Hf']%list_elem_of_filter.
      destruct (fixed_films_showtimes _ _ Hf') as [Hnd Hlen].
      unfold compose. rewrite (proj2 (fixed_film_messages _ _ _ Hnd Hlen)).
      constructor.
    + unfold count_warning.
      destruct (30 <? _); [constructor|]. destruct (20 <? _); by repeat constructor.
Qed.

(** X4. What the validator reports on the output of the fixer: no film
    with repeated showtimes and no film without showtimes, and an
    overcount only for a film with five showtimes in a cinema whose name
    does not contain "Regular" (the fixer caps at 5 there, the validator
    objects above 4). Film-count, duplicate-title and global issues are
    out of the fixer's reach. *)
Theorem validator_after_fixer data data' log :
  dataset_ok data = true →
  fix_data data = Ok (data', log) →
  ∃ r,
    validate data' = Ok r
    ∧ Forall left_by_fixer (issues r)
    ∧ Forall has_showtimes (warnings r).
Proof.
  intros Hok H.
  destruct (fix_data_inv _ _ _ Hok H) as (_ & _ & Hcs' & _ & Hok' & _).
  pose proof Hok as (_ & _ & _ & Hcs)%dataset_ok_inv.
  exists (spec_report data'). split; [by apply validate_closed|].
  cbn [issues warnings spec_report]. unfold spec_issues, spec_warnings.
  rewrite Hcs', <- !list_fmap_compose. split.
  - apply Forall_app. split.
    + apply Forall_concat_2, Forall_fmap, Forall_forall. intros c Hc.
      apply fixed_cinema_messages. by apply (forallb_elem cinema_ok _ c Hcs).
    + unfold global_issue. destruct (500 <? _); by repeat constructor.
  - apply Forall_concat_2, Forall_fmap, Forall_forall. intros c Hc.
    apply fixed_cinema_messages. by apply (forallb_elem cinema_ok _ c Hcs).
Qed.

Lemma validator_after_fixer_witness :
  dataset_ok imax_dataset = true
  ∧ ∃ data' log,
      fix_data imax_dataset = Ok (data', log)
      ∧ ∃ r,
          validate data' = Ok r
          ∧ Forall left_by_fixer (issues r)
          ∧ Forall has_showtimes (warnings r).
Proof.
  split; [reflexivity|]. eexists _, _. split; [vm_compute; reflexivity|].
  eapply (validator_after_fixer imax_dataset); [reflexivity|vm_compute; reflexivity].
Defined.

(** The fixer does not always reach a valid dataset: five distinct
    showtimes in a cinema without "Regular" survive it. *)
Lemma imax_still_invalid_after_fix :
  ∃ data' log r,
    fix_data imax_dataset = Ok (data', log)
    ∧ validate data' = Ok r
    ∧ valid r = false
    ∧ issues r = [TooManyShowtimes (JStr "IMAX") (JStr "Mon") (JStr "Dune") 5].
Proof.
  eexists _, _, _. split; [vm_compute; reflexivity|].
  split; [vm_compute; reflexivity|]. split; reflexivity.
Qed.

(** * Further properties of the validator *)

Lemma concat_nil_Forall {A : Type} (ls : list (list A)) :
  concat ls = [] ↔ Forall (fun l => l = []) ls.
Proof.
  induction ls as [|l ls IH]; simpl.
  - split; [constructor|done].
  - rewrite Forall_cons, <- IH. apply app_nil.
Qed.

Lemma filter_nil_Forall {A : Type} (p : A -> bool) (l : list A) :
  List.filter p l = [] ↔ Forall (fun x => p x = false) l.
Proof.
  induction l as [|x l IH]; simpl.
  - split; [constructor|done].
  - rewrite Forall_cons, <- IH. destruct (p x); naive_solver.
Qed.

Lemma filter_key_empty {X : Type} (key : X -> string) k (xs : list X) :
  filter (fun y => key y = k) xs = [] ↔ k ∉ key <$> xs.
Proof. apply (filter_key_nil key (fun _ => ())). Qed.

Lemma NoDup_keys_filter {X : Type} (key : X -> string) (xs : list X) :
  NoDup (key <$> xs) ↔ ∀ k, length (filter (fun x => key x = k) xs) ≤ 1.
Proof.
  induction xs as [|x xs IH].
  - split; [intros _ k; simpl; lia|constructor].
  - rewrite fmap_cons, NoDup_cons, IH, <- (filter_key_empty key). split.
    + intros [Hx Hxs] k. rewrite filter_cons. case_decide as Hk; [|apply Hxs].
      subst k. rewrite Hx. simpl. lia.
    + intros H. split.
      * specialize (H (key x)). rewrite filter_cons, decide_True in H by done.
        simpl in H. destruct (filter _ xs); [done|simpl in H; lia].
      * intros k. specialize (H k). rewrite filter_cons in H.
        case_decide; simpl in H; lia.
Qed.

Lemma groups_Forall (Q : json * list json -> Prop) (films : list json) :
  Forall Q (groups films) ↔
  ∀ d, d ∈ day_str <$> films → Q (JStr d, filter (fun f => day_str f = d) films).
Proof.
  unfold groups, table. rewrite Forall_fmap, Forall_forall.
  split; intros H d Hd; apply H; by apply elem_of_distinct.
Qed.

Lemma duplicate_titles_nil (films : list json) :
  duplicate_titles films = [] ↔ NoDup (title_str <$> films).
Proof.
  unfold duplicate_titles, table.
  rewrite filter_nil_Forall, Forall_fmap, Forall_forall, NoDup_keys_filter.
  split.
  - intros H t. destruct (decide (t ∈ title_str <$> films)) as [Hin|Hout].
    + apply elem_of_distinct in Hin. specialize (H t Hin). simpl in H.
      apply Nat.ltb_ge in H. exact H.
    + apply (filter_key_empty title_str) in Hout. rewrite Hout. simpl. lia.
  - intros H t _. simpl. apply Nat.ltb_ge, H.
Qed.

Lemma film_issues_nil name day film :
  film_issues name day film = [] ↔
  length (showtimes_of film) ≤ 4 ∧ NoDup (showtimes_of film).
Proof.
  unfold film_issues.
  destruct (4 <? _) eqn:E4; case_bool_decide as Hnd; simpl;
    (apply Nat.ltb_lt in E4 || apply Nat.ltb_ge in E4); split; try done;
    intros [? ?]; try done; lia.
Qed.

Lemma count_issue_nil name day n : count_issue name day n = [] ↔ n ≤ 30.
Proof.
  unfold count_issue.
  destruct (30 <? n) eqn:E; (apply Nat.ltb_lt in E || apply Nat.ltb_ge in E);
    split; try done; lia.
Qed.

Lemma duplicate_issue_nil name day films :
  duplicate_issue name day films = [] ↔ NoDup (title_str <$> films).
Proof.
  rewrite <- duplicate_titles_nil. unfold duplicate_issue.
  by destruct (duplicate_titles films).
Qed.

Lemma group_issues_nil name day (films : list json) :
  group_issues name (day, films) = [] ↔
  (∀ f, f ∈ films → length (showtimes_of f) ≤ 4 ∧ NoDup (showtimes_of f))
  ∧ length films ≤ 30
  ∧ NoDup (title_str <$> films).
Proof.
  unfold group_issues. cbn [fst snd].
  rewrite !app_nil, concat_nil_Forall, Forall_fmap, Forall_forall.
  rewrite count_issue_nil, duplicate_issue_nil. unfold compose.
  split; intros (H1 & H2 & H3); split_and!; try done;
    intros f Hf; by apply (film_issues_nil name day), H1.
Qed.

Lemma cinema_issues_nil cinema :
  cinema_issues cinema = [] ↔
  (∀ f, f ∈ films_of cinema →
        length (showtimes_of f) ≤ 4 ∧ NoDup (showtimes_of f))
  ∧ (∀ d, length (filter (fun f => day_str f = d) (films_of cinema)) ≤ 30
          ∧ NoDup (title_str <$> filter (fun f => day_str f = d) (films_of cinema))).
Proof.
  unfold cinema_issues.
  rewrite concat_nil_Forall, Forall_fmap, groups_Forall. unfold compose.
  split.
  - intros H. split.
    + intros f Hf.
      assert (day_str f ∈ day_str <$> films_of cinema) as Hd
        by by apply list_elem_of_fmap_2.
      pose proof (proj1 (group_issues_nil _ _ _) (H _ Hd)) as (Hfilms & _).
      apply Hfilms, list_elem_of_filter. by split.
    + intros d. destruct (decide (d ∈ day_str <$> films_of cinema)) as [Hd|Hd].
      * by pose proof (proj1 (group_issues_nil _ _ _) (H _ Hd)) as (_ & ? & ?).
      * apply (filter_key_empty day_str) in Hd. rewrite Hd. simpl.
        split; [lia|constructor].
  - intros [Hfilms Hdays] d _. apply group_issues_nil. split_and!.
    + intros f [_ Hf]%list_elem_of_filter. by apply Hfilms.
    + apply Hdays.
    + apply Hdays.
Qed.

(** X5. What makes a dataset valid: the report says [valid] exactly when
    no film has more than 4 showtimes or a repeated showtime, no day of a
    cinema has more than 30 films or a repeated title, and the total of
    the statistics is at most 500. Warnings play no part. *)
Theorem valid_iff_no_rule_broken data :
  dataset_ok data = true →
  ∃ r,
    validate data = Ok r
    ∧ (valid r = true ↔
       (∀ c, c ∈ cinemas_of data →
          (∀ f, f ∈ films_of c →
                length (showtimes_of f) ≤ 4 ∧ NoDup (showtimes_of f))
          ∧ (∀ d, length (filter (fun f => day_str f = d) (films_of c)) ≤ 30
                  ∧ NoDup (title_str <$> filter (fun f => day_str f = d) (films_of c))))
       ∧ summary_total_films r ≤ 500).
Proof.
  intros Hok. exists (spec_report data). split; [by apply validate_closed|].
  cbn [valid summary_total_films spec_report].
  rewrite Nat.eqb_eq, length_zero_iff_nil. unfold spec_issues, global_issue.
  rewrite app_nil, concat_nil_Forall, Forall_fmap, Forall_forall.
  unfold compose.
  assert ((if 500 <? total_of data then [TotalFilms (total_of data)] else []) = []
          ↔ total_of data ≤ 500) as Hglobal.
  { destruct (500 <? _) eqn:E; (apply Nat.ltb_lt in E || apply Nat.ltb_ge in E);
      split; try done; lia. }
  rewrite Hglobal.
  split; intros [H1 H2]; (split; [|done]); intros c Hc;
    by apply cinema_issues_nil, H1.
Qed.

Lemma valid_iff_no_rule_broken_witness :
  dataset_ok sample_dataset = true
  ∧ ∃ r,
      validate sample_dataset = Ok r
      ∧ (valid r = true ↔
         (∀ c, c ∈ cinemas_of sample_dataset →
            (∀ f, f ∈ films_of c →
                  length (showtimes_of f) ≤ 4 ∧ NoDup (showtimes_of f))
            ∧ (∀ d, length (filter (fun f => day_str f = d) (films_of c)) ≤ 30
                    ∧ NoDup (title_str <$> filter (fun f => day_str f = d) (films_of c))))
         ∧ summary_total_films r ≤ 500).
Proof.
  split; [reflexivity|]. apply (valid_iff_no_rule_broken sample_dataset).
  reflexivity.
Defined.

Lemma length_filter_either {A : Type} (P Q : A -> Prop)
    `{!∀ x, Decision (P x)} `{!∀ x, Decision (Q x)} (l : list A) :
  (∀ x, P x → ¬ Q x) →
  length (filter P l) + length (filter Q l) =
  length (filter (fun x => P x ∨ Q x) l).
Proof.
  intros Hdisj. induction l as [|x l IH]; [done|].
  rewrite !filter_cons.
  destruct (decide (P x)) as [HP|HP], (decide (Q x)) as [HQ|HQ].
  - by destruct (Hdisj x).
  - rewrite decide_True by by left. simpl. lia.
  - rewrite decide_True by by right. simpl. lia.
  - rewrite decide_False by tauto. done.
Qed.

Lemma sum_filter_keys {X : Type} (key : X -> string) (ks : list string)
    (xs : list X) :
  NoDup ks →
  sum_list ((fun k => length (filter (fun x => key x = k) xs)) <$> ks) =
  length (filter (fun x => key x ∈ ks) xs).
Proof.
  induction 1 as [|k ks Hk Hnd IH].
  - simpl. induction xs as [|x xs IHxs]; [done|].
    rewrite filter_cons, decide_False; [done|]. apply not_elem_of_nil.
  - rewrite fmap_cons.
    change (sum_list (?x :: ?l)) with (x + sum_list l). rewrite IH.
    rewrite (length_filter_either (fun x => key x = k) (fun x => key x ∈ ks));
      [|intros x Hx; rewrite Hx; exact Hk].
    f_equal. apply list_filter_iff. intros x. rewrite elem_of_cons. done.
Qed.

Lemma filter_all {A : Type} (P : A -> Prop) `{!∀ x, Decision (P x)} (l : list A) :
  (∀ x, x ∈ l → P x) → filter P l = l.
Proof.
  induction l as [|x l IH]; intros Hall; [done|].
  rewrite filter_cons, decide_True by (apply Hall; by left).
  f_equal. apply IH. intros y Hy. apply Hall. by right.
Qed.

Lemma groups_sizes (films : list json) :
  sum_list ((fun g => length g.2) <$> groups films) = length films.
Proof.
  unfold groups, table. rewrite <- list_fmap_compose.
  etrans; [apply (sum_filter_keys day_str), NoDup_distinct|].
  f_equal. apply filter_all. intros f Hf.
  by apply elem_of_distinct, list_elem_of_fmap_2.
Qed.

Lemma NoDup_JStr (ks : list string) : NoDup ks → NoDup (JStr <$> ks).
Proof.
  apply NoDup_fmap_2_strong. intros x y _ _ Heq. by injection Heq.
Qed.

Lemma stat_of_adds_up cinema :
  sum_list ((fun d => d.2) <$> films_by_day (stat_of cinema)) =
    total_films (stat_of cinema)
  ∧ days (stat_of cinema) = length (films_by_day (stat_of cinema))
  ∧ NoDup ((fun d => d.1) <$> films_by_day (stat_of cinema)).
Proof.
  unfold stat_of. cbn [films_by_day total_films days].
  rewrite <- !list_fmap_compose, length_fmap. split_and!; [|done|].
  - apply groups_sizes.
  - unfold compose. cbn [fst]. unfold groups.
    rewrite (table_keys day_str id). apply NoDup_JStr, NoDup_distinct.
Qed.

(** X6. The statistics of the report are consistent: there is one entry
    per distinct cinema name, in order of first appearance, and in every
    entry the per-day counts add up to [total_films], [days] is the
    number of per-day counts, and no day is listed twice. *)
Theorem stats_entries_add_up data :
  dataset_ok data = true →
  ∃ r,
    validate data = Ok r
    ∧ (fun e => e.1) <$> stats r = JStr <$> distinct (name_str <$> cinemas_of data)
    ∧ Forall
        (fun e =>
           sum_list ((fun d => d.2) <$> films_by_day e.2) = total_films e.2
           ∧ days e.2 = length (films_by_day e.2)
           ∧ NoDup ((fun d => d.1) <$> films_by_day e.2))
        (stats r).
Proof.
  intros Hok. exists (spec_report data). split; [by apply validate_closed|].
  cbn [stats spec_report]. unfold stats_of. split; [apply table_keys|].
  unfold table. apply Forall_fmap, Forall_forall. intros name _.
  apply stat_of_adds_up.
Qed.

Lemma stats_entries_add_up_witness :
  dataset_ok sample_dataset = true
  ∧ ∃ r,
      validate sample_dataset = Ok r
      ∧ (fun e => e.1) <$> stats r =
        JStr <$> distinct (name_str <$> cinemas_of sample_dataset)
      ∧ Forall
          (fun e =>
             sum_list ((fun d => d.2) <$> films_by_day e.2) = total_films e.2
             ∧ days e.2 = length (films_by_day e.2)
             ∧ NoDup ((fun d => d.1) <$> films_by_day e.2))
          (stats r).
Proof.
  split; [reflexivity|]. apply (stats_entries_add_up sample_dataset). reflexivity.
Defined.

Lemma film_issues_not_duplicate_films name day films :
  List.filter is_duplicate_films (concat (film_issues name day <$> films)) = [].
Proof.
  induction films as [|film films IH]; [done|].
  rewrite fmap_cons. cbn [concat]. rewrite List.filter_app, IH, app_nil_r.
  unfold film_issues. by destruct (4 <? _), (bool_decide _).
Qed.

Lemma duplicate_titles_elem (films : list json) t n :
  (JStr t, n) ∈ duplicate_titles films ↔
  n = length (filter (fun f => title_str f = t) films) ∧ 1 < n.
Proof.
  unfold duplicate_titles, table.
  rewrite list_elem_of_In, filter_In, <- list_elem_of_In, list_elem_of_fmap.
  cbn [snd]. rewrite Nat.ltb_lt. split.
  - intros [(k & Heq & _) Hn]. by injection Heq as -> ->.
  - intros [-> Hn]. split; [|done]. exists t. split; [done|].
    apply elem_of_distinct.
    destruct (decide (t ∈ title_str <$> films)) as [|Hout]; [done|].
    apply (filter_key_empty title_str) in Hout. rewrite Hout in Hn.
    simpl in Hn. lia.
Qed.

(** X7. Rule 5 on one (cinema, day) group: no duplicate-title issue when
    the titles of the group are distinct, and otherwise exactly one, which
    lists the titles that occur more than once, each with its number of
    occurrences, and no other title. *)
Theorem duplicate_titles_listed name day day_films issues warnings :
  forallb film_ok day_films = true →
  ∃ new_issues new_warnings,
    check_day name (day, day_films) (issues, warnings) =
    Ok (issues ++ new_issues, warnings ++ new_warnings)
    ∧ (NoDup (title_str <$> day_films) →
       List.filter is_duplicate_films new_issues = [])
    ∧ (¬ NoDup (title_str <$> day_films) →
       ∃ dups,
         List.filter is_duplicate_films new_issues = [DuplicateFilms name day dups]
         ∧ ∀ t n, (JStr t, n) ∈ dups ↔
                  n = length (filter (fun f => title_str f = t) day_films) ∧ 1 < n).
Proof.
  intros Hok. eexists _, _. split; [by apply check_day_closed|].
  unfold group_issues, count_issue. cbn [fst snd].
  rewrite !List.filter_app, film_issues_not_duplicate_films.
  assert (List.filter is_duplicate_films
            (if 30 <? length day_films
             then [TooManyFilms name day (length day_films)] else []) = []) as ->
    by by destruct (30 <? _).
  cbn [app]. split.
  - intros Hnd. by rewrite (proj2 (duplicate_issue_nil name day day_films) Hnd).
  - intros Hdup. exists (duplicate_titles day_films).
    split; [|apply duplicate_titles_elem].
    unfold duplicate_issue.
    destruct (duplicate_titles day_films) eqn:E; [|done].
    by apply duplicate_titles_nil in E.
Qed.

Lemma duplicate_titles_listed_witness :
  forallb film_ok
    [film_of "Alien" "Mon" ["19:00"]; film_of "Brazil" "Mon" ["20:00"];
     film_of "Alien" "Mon" ["21:00"]] = true
  ∧ ∃ new_issues new_warnings,
      check_day (JStr "Odeon")
        (JStr "Mon",
         [film_of "Alien" "Mon" ["19:00"]; film_of "Brazil" "Mon" ["20:00"];
          film_of "Alien" "Mon" ["21:00"]]) ([], []) =
      Ok ([] ++ new_issues, [] ++ new_warnings)
      ∧ (NoDup (title_str <$>
                  [film_of "Alien" "Mon" ["19:00"]; film_of "Brazil" "Mon" ["20:00"];
                   film_of "Alien" "Mon" ["21:00"]]) →
         List.filter is_duplicate_films new_issues = [])
      ∧ (¬ NoDup (title_str <$>
                    [film_of "Alien" "Mon" ["19:00"]; film_of "Brazil" "Mon" ["20:00"];
                     film_of "Alien" "Mon" ["21:00"]]) →
         ∃ dups,
           List.filter is_duplicate_films new_issues =
             [DuplicateFilms (JStr "Odeon") (JStr "Mon") dups]
           ∧ ∀ t n, (JStr t, n) ∈ dups ↔
                    n = length (filter (fun f => title_str f = t)
                                  [film_of "Alien" "Mon" ["19:00"];
                                   film_of "Brazil" "Mon" ["20:00"];
                                   film_of "Alien" "Mon" ["21:00"]]) ∧ 1 < n).
Proof.
  split; [reflexivity|].
  apply (duplicate_titles_listed (JStr "Odeon") (JStr "Mon")). reflexivity.
Defined.

Lemma film_warnings_nil name day film :
  film_warnings name day film = [] ↔ showtimes_of film ≠ [].
Proof.
  unfold film_warnings. by destruct (showtimes_of film).
Qed.

Lemma count_warning_nil name day n :
  count_warning name day n = [] ↔ ¬ (20 < n ≤ 30).
Proof.
  unfold count_warning.
  destruct (30 <? n) eqn:E30; (apply Nat.ltb_lt in E30 || apply Nat.ltb_ge in E30);
    [split; [lia|done]|].
  destruct (20 <? n) eqn:E20; (apply Nat.ltb_lt in E20 || apply Nat.ltb_ge in E20);
    split; try done; lia.
Qed.

Lemma group_warnings_nil name day (films : list json) :
  group_warnings name (day, films) = [] ↔
  (∀ f, f ∈ films → showtimes_of f ≠ []) ∧ ¬ (20 < length films ≤ 30).
Proof.
  unfold group_warnings. cbn [fst snd].
  rewrite app_nil, concat_nil_Forall, Forall_fmap, Forall_forall, count_warning_nil.
  unfold compose.
  split; intros [H1 H2]; (split; [|done]); intros f Hf;
    by apply (film_warnings_nil name day), H1.
Qed.

Lemma cinema_warnings_nil cinema :
  cinema_warnings cinema = [] ↔
  (∀ f, f ∈ films_of cinema → showtimes_of f ≠ [])
  ∧ (∀ d, ¬ (20 < length (filter (fun f => day_str f = d) (films_of cinema)) ≤ 30)).
Proof.
  unfold cinema_warnings.
  rewrite concat_nil_Forall, Forall_fmap, groups_Forall. unfold compose.
  split.
  - intros H. split.
    + intros f Hf.
      assert (day_str f ∈ day_str <$> films_of cinema) as Hd
        by by apply list_elem_of_fmap_2.
      pose proof (proj1 (group_warnings_nil _ _ _) (H _ Hd)) as (Hfilms & _).
      apply Hfilms, list_elem_of_filter. by split.
    + intros d. destruct (decide (d ∈ day_str <$> films_of cinema)) as [Hd|Hd].
      * by pose proof (proj1 (group_warnings_nil _ _ _) (H _ Hd)) as (_ & ?).
      * apply (filter_key_empty day_str) in Hd. rewrite Hd. simpl. lia.
  - intros [Hfilms Hdays] d _. apply group_warnings_nil. split.
    + intros f [_ Hf]%list_elem_of_filter. by apply Hfilms.
    + apply Hdays.
Qed.

(** X8. When the report has no warning: exactly when every film has at
    least one showtime and no day of a cinema has more than 20 and at most
    30 films. A day with more than 30 films gives a hard issue and no
    warning. *)
Theorem no_warning_iff data :
  dataset_ok data = true →
  ∃ r,
    validate data = Ok r
    ∧ (warnings r = [] ↔
       ∀ c, c ∈ cinemas_of data →
         (∀ f, f ∈ films_of c → showtimes_of f ≠ [])
         ∧ (∀ d, ¬ (20 < length (filter (fun f => day_str f = d) (films_of c)) ≤ 30))).
Proof.
  intros Hok. exists (spec_report data). split; [by apply validate_closed|].
  cbn [warnings spec_report]. unfold spec_warnings.
  rewrite concat_nil_Forall, Forall_fmap, Forall_forall. unfold compose.
  split; intros H c Hc; by apply cinema_warnings_nil, H.
Qed.

Lemma no_warning_iff_witness :
  dataset_ok sample_dataset = true
  ∧ ∃ r,
      validate sample_dataset = Ok r
      ∧ (warnings r = [] ↔
         ∀ c, c ∈ cinemas_of sample_dataset →
           (∀ f, f ∈ films_of c → showtimes_of f ≠ [])
           ∧ (∀ d, ¬ (20 < length (filter (fun f => day_str f = d) (films_of c)) ≤ 30))).
Proof.
  split; [reflexivity|]. apply (no_warning_iff sample_dataset). reflexivity.
Defined.

(** * Files around the fixer *)

Lemma string_length_app (s t : string) :
  String.length (s +:+ t) = String.length s + String.length t.
Proof. induction s as [|a s IH]; [done|]. rewrite append_cons. simpl. by rewrite IH. Qed.

Lemma backup_path_ne (path : string) : path +:+ ".backup" ≠ path.
Proof.
  intros Heq. apply (f_equal String.length) in Heq.
  rewrite string_length_app in Heq. simpl in Heq. lia.
Qed.




(** X10. A source that exists and does not parse: [auto_fix_data]
    returns false and prints no fix; the data file is left as it is, and
    with the backup enabled the copy has been made all the same. *)
Theorem auto_fix_data_rejects_unparseable files path backup :
  files !! path = Some NotJson →
  ∃ fx,
    auto_fix_data files path backup = Ok fx
    ∧ returned fx = false
    ∧ printed fx = []
    ∧ files_after fx !! path = Some NotJson
    ∧ (backup = true → files_after fx !! (path +:+ ".backup") = Some NotJson)
    ∧ (∀ p, (backup = false ∨ p ≠ path +:+ ".backup") →
            files_after fx !! p = files !! p).
Proof.
  intros Hfile. pose proof (backup_path_ne path) as Hne.
  unfold auto_fix_data, copy, load. rewrite Hfile. destruct backup.
  - rewrite bind_Ok, lookup_insert_ne, Hfile by done.
    eexists. split; [done|]. cbn [returned printed files_after].
    split_and!; try done.
    + by rewrite lookup_insert_ne.
    + intros _. apply lookup_insert_eq.
    + intros p [?|Hp]; [done|]. by rewrite lookup_insert_ne.
  - rewrite bind_Ok, Hfile. eexists. split; [done|].
    cbn [returned printed files_after]. by split_and!.
Qed.

Lemma auto_fix_data_rejects_unparseable_witness :
  ({[data_file := NotJson]} : gmap string file) !! data_file = Some NotJson
  ∧ ∃ fx,
      auto_fix_data {[data_file := NotJson]} data_file true = Ok fx
      ∧ returned fx = false
      ∧ printed fx = []
      ∧ files_after fx !! data_file = Some NotJson
      ∧ (true = true → files_after fx !! (data_file +:+ ".backup") = Some NotJson)
      ∧ (∀ p, (true = false ∨ p ≠ data_file +:+ ".backup") →
              files_after fx !! p = ({[data_file := NotJson]} : gmap string file) !! p).
Proof.
  split; [reflexivity|].
  apply (auto_fix_data_rejects_unparseable {[data_file := NotJson]} data_file true).
  reflexivity.
Defined.



(** * The script *)

(** The failure result of the validator has no [summary]: on a source
    that cannot be read or parsed the script ends in [KeyError]. *)
Lemma main_raises_on_unreadable_source files e :
  load files data_file = Raise e →
  validate_cinema_data files data_file = Ok (CannotRead e)
  ∧ main files = Traceback KeyError.
Proof.
  intros Hload. unfold main, validate_cinema_data. by rewrite Hload.
Qed.





(** * Names that are not strings *)

Lemma max_showtimes_no_container name :
  no_container name = true → max_showtimes name = Raise TypeError.
Proof. by destruct name. Qed.

Lemma fix_film_no_container name film st :
  no_container name = true → ∃ e, fix_film name film st = Raise e.
Proof.
  intros Hname. destruct st as [fixed log]. unfold fix_film.
  destruct (Py.get film "title" (JStr "Unknown")) as [title|e];
    [rewrite bind_Ok|by eexists].
  destruct (Py.get film "showtimes" (JArr [])) as [showtimes|e];
    [rewrite bind_Ok|by eexists].
  destruct (Py.set showtimes ≫= Py.sorted) as [unique|e];
    [rewrite bind_Ok|by eexists].
  destruct (Py.len showtimes) as [n|e]; [rewrite bind_Ok|by eexists].
  rewrite (max_showtimes_no_container name Hname).
  destruct (length unique <? n); by eexists.
Qed.

(** X15. The fixer needs a cinema name in which it can look for
    "Regular": when the name is null, a number or a boolean and the cinema
    has at least one film, the fixer raises on the first film and returns
    nothing, although such a name is no obstacle while there are no
    films. *)
Theorem fixer_raises_on_scalar_name kvs name film films cinemas log :
  Py.find "name" kvs = Some name →
  no_container name = true →
  Py.find "films" kvs = Some (JArr (film :: films)) →
  (∃ e, fix_cinema (JObj kvs) (cinemas, log) = Raise e)
  ∧ fix_cinema (JObj (Py.setitem "films" (JArr []) kvs)) (cinemas, log) =
    Ok (cinemas ++ [JObj (Py.setitem "films" (JArr []) kvs)],
        log ++ [CinemaSummary name 0 0]).
Proof.
  intros Hn Hname Hf. split.
  - unfold fix_cinema. cbn [Py.get]. rewrite Hn, Hf, !bind_Ok.
    cbn [default from_option id Py.iter]. rewrite bind_Ok. cbn [for_each].
    destruct (fix_film_no_container name film ([], log) Hname) as [e ->].
    by exists e.
  - unfold fix_cinema. cbn [Py.get].
    rewrite find_setitem_eq, find_setitem_ne, Hn, !bind_Ok by done.
    cbn [default from_option id Py.iter]. rewrite bind_Ok. cbn [for_each].
    rewrite bind_Ok. cbn [Py.store]. rewrite bind_Ok. cbn [Py.len].
    rewrite bind_Ok. cbn [length app].
    by rewrite (setitem_id "films") by apply find_setitem_eq.
Qed.

Lemma fixer_raises_on_scalar_name_witness :
  Py.find "name" [("name", JInt 7); ("films", JArr [film_of "Dune" "Mon" ["18:00"]])] =
    Some (JInt 7)
  ∧ no_container (JInt 7) = true
  ∧ Py.find "films" [("name", JInt 7); ("films", JArr [film_of "Dune" "Mon" ["18:00"]])] =
    Some (JArr [film_of "Dune" "Mon" ["18:00"]])
  ∧ (∃ e, fix_cinema
            (JObj [("name", JInt 7); ("films", JArr [film_of "Dune" "Mon" ["18:00"]])])
            ([], []) = Raise e)
  ∧ fix_cinema
      (JObj (Py.setitem "films" (JArr [])
               [("name", JInt 7); ("films", JArr [film_of "Dune" "Mon" ["18:00"]])]))
      ([], []) =
    Ok ([] ++ [JObj (Py.setitem "films" (JArr [])
                       [("name", JInt 7);
                        ("films", JArr [film_of "Dune" "Mon" ["18:00"]])])],
        [] ++ [CinemaSummary (JInt 7) 0 0]).
Proof.
  split; [reflexivity|]. split; [reflexivity|]. split; [reflexivity|].
  apply (fixer_raises_on_scalar_name
           [("name", JInt 7); ("films", JArr [film_of "Dune" "Mon" ["18:00"]])]
           (JInt 7) (film_of "Dune" "Mon" ["18:00"]) [] [] []);
    reflexivity.
Defined.

(** * The order of the log *)

(** X16. The log of the fixer is in processing order: cinema after
    cinema in input order, within a cinema film after film in input order
    with the summary line of the cinema last, and for one film first the
    removal of duplicates, then the limit, then the removal of the film. *)
Theorem fixer_log_in_processing_order data data' log :
  dataset_ok data = true →
  fix_data data = Ok (data', log) →
  log =
  concat ((fun c =>
             let cap := cap_of (name_str c) in
             concat ((fun f =>
                        let ss := showtimes_of f in
                        let title := JStr (title_str f) in
                        (if length (distinct ss) <? length ss
                         then [RemovedDuplicates title] else []) ++
                        (if cap <? length (distinct ss)
                         then [Limited title (length (distinct ss)) cap] else []) ++
                        (if length ss =? 0 then [RemovedFilm title] else []))
                     <$> films_of c) ++
             [CinemaSummary (JStr (name_str c)) (length (films_of c))
                (length (filter (fun f => showtimes_of f ≠ []) (films_of c)))])
          <$> cinemas_of data).
Proof.
  intros Hok H. destruct (fix_data_inv _ _ _ Hok H) as (_ & -> & _).
  pose proof Hok as (_ & _ & _ & Hcs)%dataset_ok_inv.
  f_equal. apply list_fmap_ext. intros i c Hc%list_elem_of_lookup_2.
  pose proof (forallb_elem _ _ _ Hcs Hc) as Hcok.
  pose proof Hcok as (_ & _ & _ & _ & Hfilms)%cinema_ok_inv.
  unfold cinema_fixes. cbn zeta. f_equal.
  - f_equal. apply list_fmap_ext. intros j f _. unfold film_fixes.
    rewrite length_sort_str, deduplicated_length. do 2 f_equal.
    pose proof (fixed_showtimes_nil (cap_of (name_str c)) (showtimes_of f)
                  (cap_of_pos _)) as Hnil.
    destruct (fixed_showtimes _ _) eqn:E, (showtimes_of f) eqn:Ess; simpl;
      try done; naive_solver.
  - do 2 f_equal. unfold fixed_films.
    symmetry. apply (Forall2_length _ _ _
      (fixed_films_kept _ _ (cap_of_pos _) Hfilms)).
Qed.

Lemma fixer_log_in_processing_order_witness :
  dataset_ok sample_dataset = true
  ∧ ∃ data' log,
      fix_data sample_dataset = Ok (data', log)
      ∧ log =
        concat ((fun c =>
                   let cap := cap_of (name_str c) in
                   concat ((fun f =>
                              let ss := showtimes_of f in
                              let title := JStr (title_str f) in
                              (if length (distinct ss) <? length ss
                               then [RemovedDuplicates title] else []) ++
                              (if cap <? length (distinct ss)
                               then [Limited title (length (distinct ss)) cap] else []) ++
                              (if length ss =? 0 then [RemovedFilm title] else []))
                           <$> films_of c) ++
                   [CinemaSummary (JStr (name_str c)) (length (films_of c))
                      (length (filter (fun f => showtimes_of f ≠ []) (films_of c)))])
                <$> cinemas_of sample_dataset).
Proof.
  split; [reflexivity|]. eexists _, _. split; [vm_compute; reflexivity|].
  eapply (fixer_log_in_processing_order sample_dataset);
    [reflexivity|vm_compute; reflexivity].
Defined.
